(** * Process execution subsystem of HPK (package [process])

    A shallow embedding of the Go package [process]: [Execute],
    [ExecuteInDir], [LoggedExecuteInDir], [ExecuteAsync],
    [ExecuteAsyncInDir] and [ExecuteString], together with the small part of
    the Go standard library they rest on ([strings.Split], [fmt.Errorf],
    [bytes.Buffer], [io.MultiWriter], [exec.Cmd]).

    Go strings and byte slices are sequences of bytes; both are rendered as
    [string] (a list of 8-bit characters).  The operating system is an
    explicit value of type [World]: it carries the inherited environment, the
    package variable [GoEnviron] and an oracle telling how a launched process
    behaves.  Every entry point returns its Go result together with the
    ordered list of operating-system requests it issued.

    The module [root] embeds the package [root] of the kubelet command: its
    options and flags, [getTaint], and the start-up sequence of
    [runRootCommand] over explicit collaborators. *)

From Stdlib Require Import String Ascii List Arith.
From Stdlib Require Import ZArith DecimalString Lia.
Import ListNotations.
Open Scope list_scope.
Open Scope string_scope.

(** ** Byte strings *)

Definition bytes := string.

Definition nl : string := String (ascii_of_nat 10) EmptyString.

Definition space : ascii := ascii_of_nat 32.

(** [strings.Split(s, sep)] for a separator of one byte [sep]: the
    substrings between the occurrences of [sep].  An input without separator
    (the empty string included) gives the one-element list holding the
    input. *)
Fixpoint Split (s : string) (sep : ascii) : list string :=
  match s with
  | EmptyString => [EmptyString]
  | String c rest =>
      if Ascii.eqb c sep then EmptyString :: Split rest sep
      else match Split rest sep with
           | [] => [String c EmptyString]
           | t :: ts => String c t :: ts
           end
  end.

(** [strings.Join(parts, sep)], the inverse direction, used to state that
    splitting loses nothing. *)
Fixpoint Join (parts : list string) (sep : ascii) : string :=
  match parts with
  | [] => EmptyString
  | [t] => t
  | t :: ts => t ++ String sep (Join ts sep)
  end.

(** [strings.Count(s, sep)] for a one-byte separator. *)
Fixpoint Count (s : string) (sep : ascii) : nat :=
  match s with
  | EmptyString => 0
  | String c rest => (if Ascii.eqb c sep then 1 else 0) + Count rest sep
  end.

(** ** Errors *)

(** A Go [error] value: either a plain error text (as [os/exec] and [errors.New] produce), or the result
    of [fmt.Errorf] with one [%w] verb, which carries its formatted text and
    the error it wraps. *)
Inductive error : Type :=
| ErrorString (msg : string)
| Errorf (msg : string) (wrapped : error).

Definition ErrorText (e : error) : string :=
  match e with
  | ErrorString m => m
  | Errorf m _ => m
  end.

Definition Unwrap (e : error) : option error :=
  match e with
  | ErrorString _ => None
  | Errorf _ w => Some w
  end.

(** [io.ErrShortWrite]. *)
Definition ErrShortWrite : error := ErrorString "short write".

(** The three error classes of the package, recognised by the format string
    that built the error. *)
Definition StartFailure (e inner : error) : Prop :=
  e = Errorf ("could not start process: " ++ ErrorText inner) inner.

Definition ExecutionFailure (e inner : error) : Prop :=
  exists text, e = Errorf ("process error: " ++ ErrorText inner ++ text) inner.

(** Whether a returned error is the one [ExecuteString] builds for a command
    without tokens. *)
Definition InvalidCommand (e : option error) (command : string) : bool :=
  match e with
  | Some (ErrorString m) =>
      String.eqb m ("invalid command to run '" ++ command ++ "'")
  | _ => false
  end.

(** ** Writers *)

(** A caller-supplied [io.Writer].  Given the bytes it accepted so far and a
    new slice [p], it reports how many bytes of [p] it consumed and an
    optional error. *)
Definition Sink := bytes -> bytes -> nat * option error.

(** The sink that accepts every write in full. *)
Definition reliable_sink : Sink := fun _ p => (String.length p, None).

(** A sink is well behaved on a run when it consumes the whole slice and
    reports no error, whatever it received before. *)
Definition always_accepts (k : Sink) : Prop :=
  forall seen p, k seen p = (String.length p, None).

(** Destinations a command's output can be wired to. *)
Inductive Writer : Type :=
| ToBuffer
| ToMultiWriter (writer : Sink).

(** What the destinations hold: the [bytes.Buffer] and the bytes the sink
    accepted. *)
Record Output : Type := mkOutput {
  buffer : bytes;
  sink_log : bytes
}.

Definition new_output : Output := mkOutput "" "".

(** [Write] of [bytes.Buffer]: appends, never fails. *)
Definition buffer_write (o : Output) (p : bytes) : Output :=
  mkOutput (buffer o ++ p) (sink_log o).

(** One [Write] call on the destination.  For [io.MultiWriter(buffer,
    writer)] the buffer is written first, then the sink; an error of the sink
    or a short write ends the call with that error. *)
Definition write (w : Writer) (o : Output) (p : bytes) : Output * option error :=
  match w with
  | ToBuffer => (buffer_write o p, None)
  | ToMultiWriter k =>
      let o1 := buffer_write o p in
      let '(n, err) := k (sink_log o1) p in
      let o2 := mkOutput (buffer o1) (sink_log o1 ++ substring 0 n p) in
      match err with
      | Some e => (o2, Some e)
      | None => if Nat.eqb n (String.length p) then (o2, None)
                else (o2, Some ErrShortWrite)
      end
  end.

(** The copying loop [os/exec] runs between the process's pipe and the
    destination: each chunk the process emits is written in order, and the
    loop ends at the first failed write. *)
Fixpoint copy (w : Writer) (o : Output) (chunks : list bytes)
  : Output * option error :=
  match chunks with
  | [] => (o, None)
  | p :: rest =>
      match write w o p with
      | (o', Some e) => (o', Some e)
      | (o', None) => copy w o' rest
      end
  end.

(** ** Commands and the operating system *)

(** [exec.Cmd], the fields the package touches.  [Args] is the argument
    vector: the name the command was created with, as typed, followed by the
    arguments.  The path of the executable, which [exec.Command] looks up
    through PATH from that name, is never read or set by the package and is
    left to the operating system.  [Env = None] is Go's nil slice: the child
    then inherits the environment of the caller.  A nil [Stdout]/[Stderr]
    sends the stream to the null device. *)
Record Cmd : Type := mkCmd {
  Args : list string;
  Dir : string;
  Env : option (list string);
  Stdout : option Writer;
  Stderr : option Writer
}.

(** [exec.Command(name, arg...)]: the argument vector starts with [name];
    every other field the package touches is left at its zero value. *)
Definition Command (name : string) (arg : list string) : Cmd :=
  mkCmd (name :: arg) "" None None None.

Definition set_Dir (c : Cmd) (d : string) : Cmd :=
  mkCmd (Args c) d (Env c) (Stdout c) (Stderr c).

Definition set_Env (c : Cmd) (e : list string) : Cmd :=
  mkCmd (Args c) (Dir c) (Some e) (Stdout c) (Stderr c).

Definition set_Stdout (c : Cmd) (w : Writer) : Cmd :=
  mkCmd (Args c) (Dir c) (Env c) (Some w) (Stderr c).

Definition set_Stderr (c : Cmd) (w : Writer) : Cmd :=
  mkCmd (Args c) (Dir c) (Env c) (Stdout c) (Some w).

(** What [os/exec] is asked to start: the argument vector, whose first
    entry is the name of the program as typed, the directory, and the list
    of entries the environment of the child is built from. *)
Record Invocation : Type := mkInvocation {
  arguments : list string;
  directory : string;
  environment : list string
}.

(** How a launch turns out: it is refused, or the process runs, emits its
    combined output as a sequence of chunks and ends with an optional exit
    error (non-zero status or signal). *)
Inductive Launch : Type :=
| Refused (e : error)
| Runs (chunks : list bytes) (exit : option error).

Record World : Type := mkWorld {
  Environ : list string;
  GoEnviron : list string;
  spawn : Invocation -> Launch
}.

(** The list of entries [os/exec] builds the environment of the child from:
    [cmd.Env] when it is set, else the inherited environment.  What
    [os/exec] does with that list afterwards (of several entries with one
    key the child sees the last, which is the answer of [lookup_env] below)
    happens behind [spawn]. *)
Definition effective_env (w : World) (c : Cmd) : list string :=
  match Env c with
  | None => Environ w
  | Some e => e
  end.

Definition invocation (w : World) (c : Cmd) : Invocation :=
  mkInvocation (Args c) (Dir c) (effective_env w c).

(** Requests made to the operating system, in order. *)
Inductive Event : Type :=
| EvStart (c : Cmd)
| EvWait (c : Cmd).

(** A started process: what it will emit and how it will end. *)
Record Process : Type := mkProcess {
  emits : list bytes;
  exit_error : option error
}.

(** [Start] of [exec.Cmd]. *)
Definition Start (w : World) (c : Cmd) : error + Process :=
  match spawn w (invocation w c) with
  | Refused e => inl e
  | Runs chunks exit => inr (mkProcess chunks exit)
  end.

(** [Wait] of [exec.Cmd]: the output is copied to the destination until the
    process has ended; the exit error comes first, else the copying error. *)
Definition Wait (c : Cmd) (p : Process) (o : Output) : Output * option error :=
  match Stdout c with
  | None => (o, exit_error p)
  | Some dst =>
      let '(o', cerr) := copy dst o (emits p) in
      (o', match exit_error p with
           | Some e => Some e
           | None => cerr
           end)
  end.

(** ** The package [process] *)

(** What a blocking entry point hands back: the Go results [out] and [err],
    the requests made to the operating system, and the bytes the caller's
    writer accepted meanwhile. *)
Record Outcome : Type := mkOutcome {
  out : bytes;
  err : option error;
  events : list Event;
  written : bytes
}.

(** The command [ExecuteInDir] builds before starting it. *)
Definition ExecuteInDir_cmd (w : World) (dir command : string)
    (arguments : list string) : Cmd :=
  let cmd := Command command arguments in
  let cmd := if String.eqb dir "" then cmd else set_Dir cmd dir in
  let cmd := set_Env cmd (Environ w) in
  let cmd := set_Env cmd (match Env cmd with
                          | Some e => e ++ GoEnviron w
                          | None => GoEnviron w
                          end)%list in
  let cmd := set_Stdout cmd ToBuffer in
  set_Stderr cmd ToBuffer.

(** [ExecuteInDir] runs system command and returns whole output also in case
    of error in a specific directory. *)
Definition ExecuteInDir (w : World) (dir command : string)
    (arguments : list string) : Outcome :=
  let cmd := ExecuteInDir_cmd w dir command arguments in
  let o := new_output in
  match Start w cmd with
  | inl e =>
      mkOutcome (buffer o)
                (Some (Errorf ("could not start process: " ++ ErrorText e) e))
                [EvStart cmd] (sink_log o)
  | inr p =>
      let '(o', werr) := Wait cmd p o in
      match werr with
      | Some e =>
          mkOutcome (buffer o')
                    (Some (Errorf ("process error: " ++ ErrorText e ++ nl
                                   ++ "output: " ++ buffer o') e))
                    [EvStart cmd; EvWait cmd] (sink_log o')
      | None => mkOutcome (buffer o') None [EvStart cmd; EvWait cmd] (sink_log o')
      end
  end.

(** [Execute] runs system command and returns whole output also in case of
    error. *)
Definition Execute (w : World) (command : string) (arguments : list string)
  : Outcome :=
  ExecuteInDir w "" command arguments.

(** The command [LoggedExecuteInDir] builds before starting it. *)
Definition LoggedExecuteInDir_cmd (dir : string) (writer : Sink)
    (command : string) (arguments : list string) : Cmd :=
  let cmd := Command command arguments in
  let cmd := if String.eqb dir "" then cmd else set_Dir cmd dir in
  let mw := ToMultiWriter writer in
  let cmd := set_Stdout cmd mw in
  set_Stderr cmd mw.

(** [LoggedExecuteInDir] runs system command and returns whole output also in
    case of error in a specific directory with logging to writer. *)
Definition LoggedExecuteInDir (w : World) (dir : string) (writer : Sink)
    (command : string) (arguments : list string) : Outcome :=
  let cmd := LoggedExecuteInDir_cmd dir writer command arguments in
  let o := new_output in
  match Start w cmd with
  | inl e =>
      mkOutcome (buffer o)
                (Some (Errorf ("could not start process: " ++ ErrorText e) e))
                [EvStart cmd] (sink_log o)
  | inr p =>
      let '(o', werr) := Wait cmd p o in
      match werr with
      | Some e =>
          mkOutcome (buffer o')
                    (Some (Errorf ("process error: " ++ ErrorText e) e))
                    [EvStart cmd; EvWait cmd] (sink_log o')
      | None => mkOutcome (buffer o') None [EvStart cmd; EvWait cmd] (sink_log o')
      end
  end.

(** What a non-blocking entry point hands back: the command, the process it
    refers to when the start succeeded, the error and the requests made. *)
Record AsyncOutcome : Type := mkAsyncOutcome {
  handle : Cmd;
  process : option Process;
  async_err : option error;
  async_events : list Event
}.

(** The command [ExecuteAsyncInDir] builds before starting it. *)
Definition ExecuteAsyncInDir_cmd (dir command : string)
    (arguments : list string) : Cmd :=
  let cmd := Command command arguments in
  if String.eqb dir "" then cmd else set_Dir cmd dir.

(** [ExecuteAsyncInDir] runs system command and doesn't wait when it's
    completed for specific directory. *)
Definition ExecuteAsyncInDir (w : World) (dir command : string)
    (arguments : list string) : AsyncOutcome :=
  let cmd := ExecuteAsyncInDir_cmd dir command arguments in
  match Start w cmd with
  | inl e =>
      mkAsyncOutcome cmd None
                     (Some (Errorf ("process error: " ++ ErrorText e) e))
                     [EvStart cmd]
  | inr p => mkAsyncOutcome cmd (Some p) None [EvStart cmd]
  end.

(** [ExecuteAsync] runs system command and doesn't wait when it's
    completed. *)
Definition ExecuteAsync (w : World) (command : string)
    (arguments : list string) : AsyncOutcome :=
  ExecuteAsyncInDir w "" command arguments.

(** The closing step of [ExecuteString]: a failure of [Execute] is wrapped
    once more, with the output appended to its text. *)
Definition ExecuteString_wrap (r : Outcome) : Outcome :=
  match err r with
  | Some e =>
      mkOutcome (out r)
                (Some (Errorf ("error: " ++ ErrorText e ++ ", output: " ++ out r) e))
                (events r) (written r)
  | None => mkOutcome (out r) None (events r) (written r)
  end.

(** [ExecuteString] executes string based command. *)
Definition ExecuteString (w : World) (command : string) : Outcome :=
  let parts := Split command space in
  match parts with
  | [p0] => ExecuteString_wrap (Execute w p0 [])
  | p0 :: rest => ExecuteString_wrap (Execute w p0 rest)
  | [] =>
      mkOutcome "" (Some (ErrorString ("invalid command to run '" ++ command ++ "'")))
                [] ""
  end.

(** ** Environment lookup *)

(** Splitting a [KEY=VALUE] entry at its first [=]; an entry without [=] has
    no key. *)
Fixpoint entry_split (s : string) : option (string * string) :=
  match s with
  | EmptyString => None
  | String c rest =>
      if Ascii.eqb c "="%char then Some (EmptyString, rest)
      else match entry_split rest with
           | Some (k, v) => Some (String c k, v)
           | None => None
           end
  end.

Definition entry_value (key entry : string) : option string :=
  match entry_split entry with
  | Some (k, v) => if String.eqb k key then Some v else None
  | None => None
  end.

(** Last-applied-wins resolution of [key] in an environment: the entry
    nearest to the end of the sequence decides. *)
Fixpoint lookup_env (env : list string) (key : string) : option string :=
  match env with
  | [] => None
  | entry :: rest =>
      match lookup_env rest key with
      | Some v => Some v
      | None => entry_value key entry
      end
  end.

(** The concatenation of all chunks a process emits: its true output. *)
Fixpoint emitted (chunks : list bytes) : bytes :=
  match chunks with
  | [] => EmptyString
  | p :: rest => p ++ emitted rest
  end.

(** [s] begins with the bytes [p]. *)
Definition is_prefix (p s : bytes) : Prop := exists rest, s = p ++ rest.

(** ** Worlds used as concrete inputs *)

(** Every launch is refused, as for a binary that does not exist. *)
Definition world_refusing : World :=
  mkWorld ["PATH=/bin"] ["MY_VAR=some_value"]
          (fun _ => Refused (ErrorString "executable file not found in $PATH")).

(** Every launch runs, prints [hi] and a newline in two chunks, exits 0. *)
Definition world_hi : World :=
  mkWorld ["PATH=/bin"] ["MY_VAR=some_value"]
          (fun _ => Runs ["hi"; nl] None).

(** Every launch runs, prints [oops] and exits with status 1. *)
Definition world_failing : World :=
  mkWorld ["PATH=/bin"] ["PATH=/opt/bin"]
          (fun _ => Runs ["oops"] (Some (ErrorString "exit status 1"))).

(** A launch prints the value of [MY_VAR] found in the environment it was
    given, or [unset]. *)
Definition world_printenv : World :=
  mkWorld ["PATH=/bin"] ["MY_VAR=some_value"]
          (fun i => match lookup_env (environment i) "MY_VAR" with
                    | Some v => Runs [v] None
                    | None => Runs ["unset"] None
                    end).

(** A writer whose every write fails, as a closed connection does. *)
Definition closed_sink : Sink := fun _ _ => (0, Some (ErrorString "closed pipe")).

(** * Package [root]: options, taint and start-up of the virtual kubelet *)

Module root.

(** Sequencing of steps that may panic. *)
Definition bind {A B : Type} (a : option A) (f : A -> option B) : option B :=
  match a with
  | Some x => f x
  | None => None
  end.

Notation "a >>= f" := (bind a f) (at level 50, left associativity).

(** [Opts] stores all the options for configuring the root virtual-kubelet
    command.  Integers and durations are rendered as [Z]. *)
Record Opts : Type := mkOpts {
  KubeNamespace : string;
  ListenPort : Z;
  NodeName : string;
  ProviderConfigPath : string;
  MetricsAddr : string;
  PodSyncWorkers : Z;
  InformerResyncPeriod : Z;
  EnableNodeLease : bool;
  StartupTimeout : Z;
  DisableTaint : bool;
  TaintKey : string;
  TaintValue : string;
  TaintEffect : string
}.

(** Assignments through the pointers [installFlags] hands to the flag
    set. *)
Definition set_KubeNamespace (c : Opts) (v : string) : Opts :=
  mkOpts v (ListenPort c) (NodeName c) (ProviderConfigPath c) (MetricsAddr
         c) (PodSyncWorkers c) (InformerResyncPeriod c) (EnableNodeLease c)
         (StartupTimeout c) (DisableTaint c) (TaintKey c) (TaintValue c)
         (TaintEffect c).

Definition set_NodeName (c : Opts) (v : string) : Opts :=
  mkOpts (KubeNamespace c) (ListenPort c) v (ProviderConfigPath c)
         (MetricsAddr c) (PodSyncWorkers c) (InformerResyncPeriod c)
         (EnableNodeLease c) (StartupTimeout c) (DisableTaint c) (TaintKey c)
         (TaintValue c) (TaintEffect c).

Definition set_ProviderConfigPath (c : Opts) (v : string) : Opts :=
  mkOpts (KubeNamespace c) (ListenPort c) (NodeName c) v (MetricsAddr c)
         (PodSyncWorkers c) (InformerResyncPeriod c) (EnableNodeLease c)
         (StartupTimeout c) (DisableTaint c) (TaintKey c) (TaintValue c)
         (TaintEffect c).

Definition set_MetricsAddr (c : Opts) (v : string) : Opts :=
  mkOpts (KubeNamespace c) (ListenPort c) (NodeName c) (ProviderConfigPath
         c) v (PodSyncWorkers c) (InformerResyncPeriod c) (EnableNodeLease c)
         (StartupTimeout c) (DisableTaint c) (TaintKey c) (TaintValue c)
         (TaintEffect c).

Definition set_PodSyncWorkers (c : Opts) (v : Z) : Opts :=
  mkOpts (KubeNamespace c) (ListenPort c) (NodeName c) (ProviderConfigPath
         c) (MetricsAddr c) v (InformerResyncPeriod c) (EnableNodeLease c)
         (StartupTimeout c) (DisableTaint c) (TaintKey c) (TaintValue c)
         (TaintEffect c).

Definition set_InformerResyncPeriod (c : Opts) (v : Z) : Opts :=
  mkOpts (KubeNamespace c) (ListenPort c) (NodeName c) (ProviderConfigPath
         c) (MetricsAddr c) (PodSyncWorkers c) v (EnableNodeLease c)
         (StartupTimeout c) (DisableTaint c) (TaintKey c) (TaintValue c)
         (TaintEffect c).

Definition set_EnableNodeLease (c : Opts) (v : bool) : Opts :=
  mkOpts (KubeNamespace c) (ListenPort c) (NodeName c) (ProviderConfigPath
         c) (MetricsAddr c) (PodSyncWorkers c) (InformerResyncPeriod c) v
         (StartupTimeout c) (DisableTaint c) (TaintKey c) (TaintValue c)
         (TaintEffect c).

Definition set_StartupTimeout (c : Opts) (v : Z) : Opts :=
  mkOpts (KubeNamespace c) (ListenPort c) (NodeName c) (ProviderConfigPath
         c) (MetricsAddr c) (PodSyncWorkers c) (InformerResyncPeriod c)
         (EnableNodeLease c) v (DisableTaint c) (TaintKey c) (TaintValue c)
         (TaintEffect c).

Definition set_DisableTaint (c : Opts) (v : bool) : Opts :=
  mkOpts (KubeNamespace c) (ListenPort c) (NodeName c) (ProviderConfigPath
         c) (MetricsAddr c) (PodSyncWorkers c) (InformerResyncPeriod c)
         (EnableNodeLease c) (StartupTimeout c) v (TaintKey c) (TaintValue c)
         (TaintEffect c).

Definition set_TaintKey (c : Opts) (v : string) : Opts :=
  mkOpts (KubeNamespace c) (ListenPort c) (NodeName c) (ProviderConfigPath
         c) (MetricsAddr c) (PodSyncWorkers c) (InformerResyncPeriod c)
         (EnableNodeLease c) (StartupTimeout c) (DisableTaint c) v (TaintValue c)
         (TaintEffect c).

Definition set_TaintValue (c : Opts) (v : string) : Opts :=
  mkOpts (KubeNamespace c) (ListenPort c) (NodeName c) (ProviderConfigPath
         c) (MetricsAddr c) (PodSyncWorkers c) (InformerResyncPeriod c)
         (EnableNodeLease c) (StartupTimeout c) (DisableTaint c) (TaintKey c) v
         (TaintEffect c).

Definition set_TaintEffect (c : Opts) (v : string) : Opts :=
  mkOpts (KubeNamespace c) (ListenPort c) (NodeName c) (ProviderConfigPath
         c) (MetricsAddr c) (PodSyncWorkers c) (InformerResyncPeriod c)
         (EnableNodeLease c) (StartupTimeout c) (DisableTaint c) (TaintKey c)
         (TaintValue c) v.

(** The defaults of package [api] that [installFlags] reads; the package is
    not part of the sources at hand, so they are taken as a parameter. *)
Record ApiDefaults : Type := mkApiDefaults {
  DefaultKubeNamespace : string;
  DefaultNodeName : string;
  DefaultMetricsAddr : string;
  DefaultPodSyncWorkers : Z;
  DefaultInformerResyncPeriod : Z;
  DefaultTaintKey : string;
  DefaultTaintValue : string;
  DefaultTaintEffect : string
}.

(** ** Flags *)

Inductive FlagValue : Type :=
| StringValue (s : string)
| IntValue (n : Z)
| BoolValue (b : bool)
| DurationValue (d : Z).

Record Flag : Type := mkFlag {
  Name : string;
  DefValue : FlagValue;
  Usage : string
}.

(** A [pflag.FlagSet]: the flags defined so far, in order of definition. *)
Definition FlagSet := list Flag.

Definition defined (flags : FlagSet) (name : string) : bool :=
  existsb (fun f => String.eqb (Name f) name) flags.

(** [AddFlag] of [pflag.FlagSet]: defining a name twice panics, rendered as
    [None]. *)
Definition AddFlag (flags : FlagSet) (f : Flag) : option FlagSet :=
  if defined flags (Name f) then None else Some (flags ++ [f])%list.

(** [StringVar], [IntVar], [BoolVar] and [DurationVar]: the variable pointed
    to receives the default, then the flag is added. *)
Definition StringVar (p : Opts -> string -> Opts) (name value usage : string)
    (st : FlagSet * Opts) : option (FlagSet * Opts) :=
  let c := p (snd st) value in
  AddFlag (fst st) (mkFlag name (StringValue value) usage)
  >>= fun flags => Some (flags, c).

Definition IntVar (p : Opts -> Z -> Opts) (name : string) (value : Z)
    (usage : string) (st : FlagSet * Opts) : option (FlagSet * Opts) :=
  let c := p (snd st) value in
  AddFlag (fst st) (mkFlag name (IntValue value) usage)
  >>= fun flags => Some (flags, c).

Definition BoolVar (p : Opts -> bool -> Opts) (name : string) (value : bool)
    (usage : string) (st : FlagSet * Opts) : option (FlagSet * Opts) :=
  let c := p (snd st) value in
  AddFlag (fst st) (mkFlag name (BoolValue value) usage)
  >>= fun flags => Some (flags, c).

Definition DurationVar (p : Opts -> Z -> Opts) (name : string) (value : Z)
    (usage : string) (st : FlagSet * Opts) : option (FlagSet * Opts) :=
  let c := p (snd st) value in
  AddFlag (fst st) (mkFlag name (DurationValue value) usage)
  >>= fun flags => Some (flags, c).

(** [installFlags] defines the twelve flags of the command on [flags], each
    bound to a field of [c]. *)
Definition installFlags (api : ApiDefaults) (flags : FlagSet) (c : Opts)
  : option (FlagSet * Opts) :=
  Some (flags, c)
  >>= StringVar set_KubeNamespace "namespace" (DefaultKubeNamespace api)
        "kubernetes namespace (default is 'all')"
  >>= StringVar set_NodeName "nodename" (DefaultNodeName api)
        "kubernetes node name"
  >>= StringVar set_ProviderConfigPath "provider-config" ""
        "HPC provider configuration file"
  >>= StringVar set_MetricsAddr "metrics-addr" (DefaultMetricsAddr api)
        "address to listen for metrics/stats requests"
  >>= IntVar set_PodSyncWorkers "pod-sync-workers" (DefaultPodSyncWorkers api)
        "set the number of pod synchronization workers"
  >>= BoolVar set_EnableNodeLease "enable-node-lease" true
        "use node leases (1.13) for node heartbeats"
  >>= DurationVar set_InformerResyncPeriod "full-resync-period"
        (DefaultInformerResyncPeriod api)
        "how often to perform a full resync of pods between kubernetes and the provider"
  >>= DurationVar set_StartupTimeout "startup-timeout" 0
        "How long to wait for the virtual-kubelet to start"
  >>= BoolVar set_DisableTaint "disable-taint" false
        "disable the virtual-kubelet node taint"
  >>= StringVar set_TaintKey "taint-key" (DefaultTaintKey api)
        "Set node taint key"
  >>= StringVar set_TaintValue "taint-value" (DefaultTaintValue api)
        "Set node taint value"
  >>= StringVar set_TaintEffect "taint-effect" (DefaultTaintEffect api)
        "Set node taint effect".

(** The names [installFlags] defines, in order. *)
Definition flag_names : list string :=
  ["namespace"; "nodename"; "provider-config"; "metrics-addr";
   "pod-sync-workers"; "enable-node-lease"; "full-resync-period";
   "startup-timeout"; "disable-taint"; "taint-key"; "taint-value";
   "taint-effect"].

(** ** Taints *)

(** The three constants of [corev1.TaintEffect] that [getTaint] uses. *)
Inductive Effect : Type :=
| TaintEffectNoSchedule
| TaintEffectNoExecute
| TaintEffectPreferNoSchedule.

Record Taint : Type := mkTaint {
  Key : string;
  Value : string;
  TEffect : Effect
}.

(** [errdefs.InvalidInputf] with the format of [getTaint].  The verb [%q] is
    [strconv.Quote], a library function taken as the parameter [quote]. *)
Definition unsupported_effect (quote : string -> string) (effect : string)
  : error :=
  ErrorString ("taint effect " ++ quote effect ++ " is not supported").

(** [getTaint] creates a taint using the provided key/value. *)
Definition getTaint (quote : string -> string) (o : Opts) : error + Taint :=
  if String.eqb (TaintEffect o) "NoSchedule" then
    inr (mkTaint (TaintKey o) (TaintValue o) TaintEffectNoSchedule)
  else if String.eqb (TaintEffect o) "NoExecute" then
    inr (mkTaint (TaintKey o) (TaintValue o) TaintEffectNoExecute)
  else if String.eqb (TaintEffect o) "PreferNoSchedule" then
    inr (mkTaint (TaintKey o) (TaintValue o) TaintEffectPreferNoSchedule)
  else inl (unsupported_effect quote (TaintEffect o)).

(** ** Start-up *)

(** [errors.Wrapf] and [errors.Wrap] of [github.com/pkg/errors]: a nil error
    stays nil, any other is annotated with the message. *)
Definition Wrapf (err : option error) (message : string) : option error :=
  match err with
  | None => None
  | Some e => Some (Errorf (message ++ ": " ++ ErrorText e) e)
  end.

Definition Wrap (err : option error) (message : string) : option error :=
  Wrapf err message.

Record EndpointAddress : Type := mkEndpointAddress { IP : string }.

Record EndpointSubset : Type := mkEndpointSubset {
  Addresses : list EndpointAddress
}.

Record Endpoints : Type := mkEndpoints { Subsets : list EndpointSubset }.

(** [provider.InitConfig]; the resource manager it also carries is an opaque
    value and is left out. *)
Record InitConfig : Type := mkInitConfig {
  InitNodeName : string;
  InternalIP : string;
  DaemonPort : Z;
  InitBuildVersion : string
}.

Record apiServerConfig : Type := mkApiServerConfig {
  CertPath : string;
  KeyPath : string;
  Addr : string;
  ServerMetricsAddr : string
}.

(** Everything outside the package that [runRootCommand] calls: each
    collaborator tells whether its call fails.  [ContainerRegistry] stands
    for the field of that name read from the options, which the [Opts] at
    hand does not declare; [Ready] tells, for a timeout, whether the pod
    controller became ready in time ([None]) or the context ended first, and
    with which error. *)
Record Collaborators : Type := mkCollaborators {
  Quote : string -> string;
  LookupEnv : string -> option string;
  BuildVersion : string;
  ContainerRegistry : Opts -> string;
  GetConfig : option error;
  NewForConfig : option error;
  NewResourceManager : option error;
  GetEndpoints : error + Endpoints;
  NewProvider : InitConfig -> option error;
  setupHTTPServer : apiServerConfig -> option error;
  NewNodeController : bool -> option error;
  NewPodController : option error;
  Ready : Z -> option error;
  nodeControllerRun : option error
}.

(** The calls [runRootCommand] makes, in order; log lines are left out. *)
Inductive Step : Type :=
| StGetConfig
| StNewForConfig
| StNewResourceManager
| StStartInformers
| StGetEndpoints
| StSetGlobals (registry ip : string)
| StNewProvider (cfg : InitConfig)
| StSetupHTTP (cfg : apiServerConfig)
| StCancelHTTP
| StCreateVirtualNode (name : string) (taint : option Taint)
| StNewNodeController (lease : bool)
| StStartEventBroadcaster (namespace : string)
| StNewPodController
| StRunPodController (workers : Z)
| StWaitFor (timeout : Z)
| StRunNodeController.

Definition Run : Type := option error * list Step.

(** A call made before the rest of the function goes on. *)
Definition step (s : Step) (r : Run) : Run := (fst r, s :: snd r).

(** A call deferred to the return of the function. *)
Definition deferred (s : Step) (r : Run) : Run := (fst r, snd r ++ [s])%list.

Definition envOr (k : Collaborators) (name alt : string) : string :=
  match LookupEnv k name with
  | Some v => v
  | None => alt
  end.

(** [os.Getenv]. *)
Definition Getenv (k : Collaborators) (name : string) : string :=
  match LookupEnv k name with
  | Some v => v
  | None => ""
  end.

(** [fmt.Sprintf] with the verb [%d]. *)
Definition decimal (n : Z) : string := NilZero.string_of_int (Z.to_int n).

Definition waitFor (k : Collaborators) (time : Z) : option error :=
  match Ready k time with
  | None => None
  | Some ctxErr => Wrap (Some ctxErr) "Error while starting up VK"
  end.

(** The taint of the virtual node: none when taints are disabled, else the
    one [getTaint] builds, or its error. *)
Definition nodeTaint (k : Collaborators) (c : Opts) : error + option Taint :=
  if DisableTaint c then inr None
  else match getTaint (Quote k) c with
       | inl err => inl err
       | inr t => inr (Some t)
       end.

(** The second half of [runRootCommand], from the registration of the
    virtual node on. *)
Definition registerAndRun (k : Collaborators) (c : Opts) : Run :=
  match nodeTaint k c with
  | inl err => (Some err, [])
  | inr taint =>
  step (StCreateVirtualNode (NodeName c) taint)
  (step (StNewNodeController (EnableNodeLease c))
  match NewNodeController k (EnableNodeLease c) with
  | Some err => (Wrap (Some err) "cannot start node controller", [])
  | None =>
  step (StStartEventBroadcaster (KubeNamespace c))
  (step StNewPodController
  match NewPodController k with
  | Some err => (Wrap (Some err) "error setting up pod controller", [])
  | None =>
  step (StRunPodController (PodSyncWorkers c))
  (if (0 <? StartupTimeout c)%Z then
     step (StWaitFor (StartupTimeout c))
     match waitFor k (StartupTimeout c) with
     | Some err => (Some err, [])
     | None => step StRunNodeController (nodeControllerRun k, [])
     end
   else step StRunNodeController (nodeControllerRun k, []))
  end)
  end)
  end.

Definition runRootCommand (k : Collaborators) (c : Opts) : Run :=
  step StGetConfig
  match GetConfig k with
  | Some err => (Wrapf (Some err) "unable to get kubeconfig", [])
  | None =>
  step StNewForConfig
  match NewForConfig k with
  | Some err => (Wrapf (Some err) "unable to start kubernetes client", [])
  | None =>
  step StNewResourceManager
  match NewResourceManager k with
  | Some err => (Wrap (Some err) "could not create resource manager", [])
  | None =>
  step StStartInformers
  (step StGetEndpoints
  match GetEndpoints k with
  | inl err => (Wrapf (Some err) "unable to discover dns server", [])
  | inr dnsEndpoint =>
  match Subsets dnsEndpoint with
  | [] => (Wrapf None "empty dns subsets", [])
  | subset0 :: _ =>
  match Addresses subset0 with
  | [] => (Wrapf None "empty dns addresses", [])
  | dnsIP :: _ =>
  step (StSetGlobals (ContainerRegistry k c) (IP dnsIP))
  (let cfg := mkInitConfig (NodeName c) (envOr k "VKUBELET_POD_IP" "127.0.0.1")
                           (ListenPort c) (BuildVersion k) in
   step (StNewProvider cfg)
   match NewProvider k cfg with
   | Some err => (Some err, [])
   | None =>
   let server := mkApiServerConfig (Getenv k "APISERVER_CERT_LOCATION")
                                   (Getenv k "APISERVER_KEY_LOCATION")
                                   (":" ++ decimal (ListenPort c)) "" in
   step (StSetupHTTP server)
   match setupHTTPServer k server with
   | Some err => (Wrapf (Some err) "unable to start http server", [])
   | None => deferred StCancelHTTP (registerAndRun k c)
   end
   end)
  end
  end
  end)
  end
  end
  end.

(** The [RunE] closure of [NewCommand], on the options as they stand when
    the command runs. *)
Definition RunE (k : Collaborators) (c : Opts) : Run :=
  if (PodSyncWorkers c =? 0)%Z then
    (Some (ErrorString "pod sync workers must be greater than 0"), [])
  else runRootCommand k c.

(** [cobra.Command], the fields [NewCommand] fills, with the options its
    flags are bound to. *)
Record CobraCommand : Type := mkCobraCommand {
  Use : string;
  Short : string;
  Long : string;
  Flags : FlagSet;
  bound : Opts
}.

(** [NewCommand] creates a new top-level command; [None] is a panic. *)
Definition NewCommand (api : ApiDefaults) (name : string) (c : Opts)
  : option CobraCommand :=
  installFlags api [] c
  >>= fun st =>
  Some (mkCobraCommand name
    (name ++ " provides a virtual kubelet interface for your kubernetes cluster.")
    (name ++ " implements the Kubelet interface with a pluggable" ++ nl
     ++ "backend implementation allowing users to create kubernetes nodes without running the kubelet."
     ++ nl
     ++ "This allows users to schedule kubernetes workloads on nodes that aren't running Kubernetes.")
    (fst st) (snd st)).

(** ** Notions used to state properties of the package *)

(** The case labels of the switch in [getTaint]. *)
Definition supported (effect : string) : bool :=
  existsb (String.eqb effect) ["NoSchedule"; "NoExecute"; "PreferNoSchedule"].

(** The case label under which [getTaint] picks each constant. *)
Definition label (e : Effect) : string :=
  match e with
  | TaintEffectNoSchedule => "NoSchedule"
  | TaintEffectNoExecute => "NoExecute"
  | TaintEffectPreferNoSchedule => "PreferNoSchedule"
  end.

(** The flags [installFlags] defines, in order, and the options once every
    bound field holds its default. *)
Definition default_flags (api : ApiDefaults) : FlagSet :=
  [mkFlag "namespace" (StringValue (DefaultKubeNamespace api))
          "kubernetes namespace (default is 'all')";
   mkFlag "nodename" (StringValue (DefaultNodeName api)) "kubernetes node name";
   mkFlag "provider-config" (StringValue "") "HPC provider configuration file";
   mkFlag "metrics-addr" (StringValue (DefaultMetricsAddr api))
          "address to listen for metrics/stats requests";
   mkFlag "pod-sync-workers" (IntValue (DefaultPodSyncWorkers api))
          "set the number of pod synchronization workers";
   mkFlag "enable-node-lease" (BoolValue true)
          "use node leases (1.13) for node heartbeats";
   mkFlag "full-resync-period" (DurationValue (DefaultInformerResyncPeriod api))
          "how often to perform a full resync of pods between kubernetes and the provider";
   mkFlag "startup-timeout" (DurationValue 0)
          "How long to wait for the virtual-kubelet to start";
   mkFlag "disable-taint" (BoolValue false)
          "disable the virtual-kubelet node taint";
   mkFlag "taint-key" (StringValue (DefaultTaintKey api)) "Set node taint key";
   mkFlag "taint-value" (StringValue (DefaultTaintValue api))
          "Set node taint value";
   mkFlag "taint-effect" (StringValue (DefaultTaintEffect api))
          "Set node taint effect"].

Definition defaults (api : ApiDefaults) (c : Opts) : Opts :=
  mkOpts (DefaultKubeNamespace api) (ListenPort c) (DefaultNodeName api) ""
         (DefaultMetricsAddr api) (DefaultPodSyncWorkers api)
         (DefaultInformerResyncPeriod api) true 0 false (DefaultTaintKey api)
         (DefaultTaintValue api) (DefaultTaintEffect api).

Definition is_cancel (s : Step) : bool :=
  match s with StCancelHTTP => true | _ => false end.

(** A set-up of the HTTP server that the collaborator lets succeed. *)
Definition is_served (k : Collaborators) (s : Step) : bool :=
  match s with
  | StSetupHTTP cfg =>
      match setupHTTPServer k cfg with None => true | Some _ => false end
  | _ => false
  end.

Definition is_wait (s : Step) : bool :=
  match s with StWaitFor _ => true | _ => false end.

Definition is_node_run (s : Step) : bool :=
  match s with StRunNodeController => true | _ => false end.

Definition is_pod_run (s : Step) : bool :=
  match s with StRunPodController _ => true | _ => false end.

Definition is_node_created (s : Step) : bool :=
  match s with StCreateVirtualNode _ _ => true | _ => false end.

(** The messages [runRootCommand] wraps the error of a collaborator in. *)
Definition wrap_messages : list string :=
  ["unable to get kubeconfig"; "unable to start kubernetes client";
   "could not create resource manager"; "unable to discover dns server";
   "unable to start http server"; "cannot start node controller";
   "error setting up pod controller"; "Error while starting up VK"].

(** ** Concrete inputs *)

Definition dquote : string := String (ascii_of_nat 34) EmptyString.

Definition sample_api : ApiDefaults :=
  mkApiDefaults "" "vk" ":10255" 10 60000000000 "virtual-kubelet.io/provider"
                "hpk" "NoSchedule".

Definition sample_opts : Opts :=
  mkOpts "default" 10250 "hpk-node" "" ":10255" 10 60000000000 true 0 false
         "virtual-kubelet.io/provider" "hpk" "NoSchedule".

(** Collaborators that all succeed; the DNS service has one address. *)
Definition all_fine : Collaborators :=
  mkCollaborators (fun s => dquote ++ s ++ dquote) (fun _ => None) "v0"
    (fun _ => "registry.local") None None None
    (inr (mkEndpoints [mkEndpointSubset [mkEndpointAddress "10.96.0.10"]]))
    (fun _ => None) (fun _ => None) (fun _ => None) None (fun _ => None) None.

(** The same, but the DNS service has no subsets. *)
Definition dns_without_subsets : Collaborators :=
  mkCollaborators (Quote all_fine) (LookupEnv all_fine) (BuildVersion all_fine)
    (ContainerRegistry all_fine) None None None (inr (mkEndpoints []))
    (NewProvider all_fine) (setupHTTPServer all_fine)
    (NewNodeController all_fine) None (Ready all_fine) None.

(** The same as [all_fine], but the pod controller is never ready in time. *)
Definition never_ready : Collaborators :=
  mkCollaborators (Quote all_fine) (LookupEnv all_fine) (BuildVersion all_fine)
    (ContainerRegistry all_fine) None None None (GetEndpoints all_fine)
    (NewProvider all_fine) (setupHTTPServer all_fine)
    (NewNodeController all_fine) None
    (fun _ => Some (ErrorString "context deadline exceeded")) None.

End root.

(** * Properties *)

(** ** Strings *)

Lemma append_nil_r (s : string) : s ++ "" = s.
Proof. induction s as [|c s IH]; simpl; [reflexivity | now rewrite IH]. Qed.

Lemma append_assoc (a b c : string) : (a ++ b) ++ c = a ++ (b ++ c).
Proof. induction a as [|x a IH]; simpl; [reflexivity | now rewrite IH]. Qed.

Lemma substring_full (p : string) : substring 0 (String.length p) p = p.
Proof. induction p as [|c p IH]; simpl; [reflexivity | now rewrite IH]. Qed.

Lemma substring_is_prefix (n : nat) (p : string) : is_prefix (substring 0 n p) p.
Proof.
  revert n; induction p as [|c p IH]; intros [|n]; simpl.
  - now exists "".
  - now exists "".
  - now exists (String c p).
  - destruct (IH n) as [r Hr]. exists r. simpl. now rewrite <- Hr.
Qed.

(** ** The tokenizer *)

Lemma Split_nonempty (s : string) (sep : ascii) : Split s sep <> [].
Proof.
  destruct s as [|c s]; simpl; [discriminate|].
  destruct (Ascii.eqb c sep); [discriminate|].
  destruct (Split s sep); discriminate.
Qed.


Lemma Split_app (a b : string) (sep : ascii) :
  Split (a ++ String sep b) sep = (Split a sep ++ Split b sep)%list.
Proof.
  induction a as [|c a IH]; simpl.
  - now rewrite Ascii.eqb_refl.
  - destruct (Ascii.eqb c sep); [now rewrite IH|].
    rewrite IH. destruct (Split a sep) eqn:E; [|reflexivity].
    now destruct (Split_nonempty a sep).
Qed.





(** ** The output multiplexer *)

Lemma copy_ToBuffer (o : Output) (chunks : list bytes) :
  copy ToBuffer o chunks
  = (mkOutput (buffer o ++ emitted chunks) (sink_log o), None).
Proof.
  revert o; induction chunks as [|p rest IH]; intro o; simpl.
  - rewrite append_nil_r. now destruct o.
  - rewrite IH. simpl. now rewrite append_assoc.
Qed.

Lemma write_accepting (k : Sink) (o : Output) (p : bytes) :
  always_accepts k ->
  write (ToMultiWriter k) o p
  = (mkOutput (buffer o ++ p) (sink_log o ++ p), None).
Proof.
  intro Hk. unfold write. simpl. rewrite Hk.
  now rewrite Nat.eqb_refl, substring_full.
Qed.

Lemma copy_accepting (k : Sink) (o : Output) (chunks : list bytes) :
  always_accepts k ->
  copy (ToMultiWriter k) o chunks
  = (mkOutput (buffer o ++ emitted chunks) (sink_log o ++ emitted chunks), None).
Proof.
  intro Hk. revert o; induction chunks as [|p rest IH]; intro o.
  - simpl. rewrite !append_nil_r. now destruct o.
  - cbn [copy emitted]. rewrite (write_accepting k o p Hk), IH. simpl.
    now rewrite !append_assoc.
Qed.

(** One multiplexed write keeps the two destinations level when it succeeds,
    and leaves the sink at most behind the buffer when it fails. *)
Lemma write_multi_level (k : Sink) (o : Output) (p : bytes) :
  buffer o = sink_log o ->
  (snd (write (ToMultiWriter k) o p) = None ->
   buffer (fst (write (ToMultiWriter k) o p))
   = sink_log (fst (write (ToMultiWriter k) o p)))
  /\ is_prefix (sink_log (fst (write (ToMultiWriter k) o p)))
               (buffer (fst (write (ToMultiWriter k) o p))).
Proof.
  intro Hlevel. unfold write. simpl.
  destruct (k (sink_log o) p) as [n [e|]] eqn:Ek; simpl.
  - split; [discriminate|].
    destruct (substring_is_prefix n p) as [r Hr]. exists r.
    rewrite Hlevel, append_assoc. now rewrite <- Hr.
  - destruct (Nat.eqb n (String.length p)) eqn:En; simpl.
    + apply Nat.eqb_eq in En; subst n. rewrite substring_full, Hlevel.
      split; [reflexivity | exists ""; now rewrite append_nil_r].
    + split; [discriminate|].
      destruct (substring_is_prefix n p) as [r Hr]. exists r.
      rewrite Hlevel, append_assoc. now rewrite <- Hr.
Qed.

Lemma copy_multi_level (k : Sink) (chunks : list bytes) (o : Output) :
  buffer o = sink_log o ->
  (snd (copy (ToMultiWriter k) o chunks) = None ->
   buffer (fst (copy (ToMultiWriter k) o chunks))
   = sink_log (fst (copy (ToMultiWriter k) o chunks)))
  /\ is_prefix (sink_log (fst (copy (ToMultiWriter k) o chunks)))
               (buffer (fst (copy (ToMultiWriter k) o chunks))).
Proof.
  revert o; induction chunks as [|p rest IH]; intros o Hlevel.
  - simpl. split; [now intros _|]. exists "". now rewrite append_nil_r.
  - cbn [copy]. pose proof (write_multi_level k o p Hlevel) as [Hok Hpre].
    destruct (write (ToMultiWriter k) o p) as [o' [e|]]; simpl in *.
    + split; [discriminate | exact Hpre].
    + apply IH. now apply Hok.
Qed.

(** ** Shape of the commands *)

Lemma ExecuteInDir_cmd_Stdout (w : World) (dir command : string)
    (arguments : list string) :
  Stdout (ExecuteInDir_cmd w dir command arguments) = Some ToBuffer.
Proof. unfold ExecuteInDir_cmd. now destruct (String.eqb dir ""). Qed.


Lemma ExecuteInDir_cmd_Args (w : World) (dir command : string)
    (arguments : list string) :
  Args (ExecuteInDir_cmd w dir command arguments) = command :: arguments.
Proof. unfold ExecuteInDir_cmd. now destruct (String.eqb dir ""). Qed.

Lemma LoggedExecuteInDir_cmd_Stdout (dir : string) (writer : Sink)
    (command : string) (arguments : list string) :
  Stdout (LoggedExecuteInDir_cmd dir writer command arguments)
  = Some (ToMultiWriter writer).
Proof. unfold LoggedExecuteInDir_cmd. now destruct (String.eqb dir ""). Qed.


Lemma ExecuteAsyncInDir_cmd_streams (dir command : string)
    (arguments : list string) :
  Stdout (ExecuteAsyncInDir_cmd dir command arguments) = None
  /\ Stderr (ExecuteAsyncInDir_cmd dir command arguments) = None
  /\ Env (ExecuteAsyncInDir_cmd dir command arguments) = None.
Proof. unfold ExecuteAsyncInDir_cmd. now destruct (String.eqb dir ""). Qed.

(** ** Unfolding the blocking entry points on a known launch *)

Lemma ExecuteInDir_refused (w : World) (dir command : string)
    (arguments : list string) (e : error) :
  spawn w (invocation w (ExecuteInDir_cmd w dir command arguments)) = Refused e ->
  ExecuteInDir w dir command arguments
  = mkOutcome "" (Some (Errorf ("could not start process: " ++ ErrorText e) e))
              [EvStart (ExecuteInDir_cmd w dir command arguments)] "".
Proof. intro H. unfold ExecuteInDir, Start. now rewrite H. Qed.

Lemma ExecuteInDir_runs (w : World) (dir command : string)
    (arguments : list string) (chunks : list bytes) (exit : option error) :
  spawn w (invocation w (ExecuteInDir_cmd w dir command arguments))
  = Runs chunks exit ->
  ExecuteInDir w dir command arguments
  = let cmd := ExecuteInDir_cmd w dir command arguments in
    match exit with
    | Some e =>
        mkOutcome (emitted chunks)
                  (Some (Errorf ("process error: " ++ ErrorText e ++ nl
                                 ++ "output: " ++ emitted chunks) e))
                  [EvStart cmd; EvWait cmd] ""
    | None => mkOutcome (emitted chunks) None [EvStart cmd; EvWait cmd] ""
    end.
Proof.
  intro H. unfold ExecuteInDir, Start, Wait. rewrite H.
  rewrite ExecuteInDir_cmd_Stdout, copy_ToBuffer. simpl.
  now destruct exit.
Qed.

Lemma LoggedExecuteInDir_refused (w : World) (dir : string) (writer : Sink)
    (command : string) (arguments : list string) (e : error) :
  spawn w (invocation w (LoggedExecuteInDir_cmd dir writer command arguments))
  = Refused e ->
  LoggedExecuteInDir w dir writer command arguments
  = mkOutcome "" (Some (Errorf ("could not start process: " ++ ErrorText e) e))
              [EvStart (LoggedExecuteInDir_cmd dir writer command arguments)] "".
Proof. intro H. unfold LoggedExecuteInDir, Start. now rewrite H. Qed.

Lemma LoggedExecuteInDir_runs (w : World) (dir : string) (writer : Sink)
    (command : string) (arguments : list string)
    (chunks : list bytes) (exit : option error) :
  spawn w (invocation w (LoggedExecuteInDir_cmd dir writer command arguments))
  = Runs chunks exit ->
  let cmd := LoggedExecuteInDir_cmd dir writer command arguments in
  let o := fst (copy (ToMultiWriter writer) new_output chunks) in
  let cerr := snd (copy (ToMultiWriter writer) new_output chunks) in
  LoggedExecuteInDir w dir writer command arguments
  = match exit with
    | Some e =>
        mkOutcome (buffer o) (Some (Errorf ("process error: " ++ ErrorText e) e))
                  [EvStart cmd; EvWait cmd] (sink_log o)
    | None =>
        match cerr with
        | Some e =>
            mkOutcome (buffer o) (Some (Errorf ("process error: " ++ ErrorText e) e))
                      [EvStart cmd; EvWait cmd] (sink_log o)
        | None => mkOutcome (buffer o) None [EvStart cmd; EvWait cmd] (sink_log o)
        end
    end.
Proof.
  intro H. unfold LoggedExecuteInDir, Start, Wait. rewrite H.
  rewrite LoggedExecuteInDir_cmd_Stdout. simpl.
  destruct (copy (ToMultiWriter writer) new_output chunks) as [o' cerr'].
  simpl. now destruct exit.
Qed.

Lemma ExecuteInDir_first_event (w : World) (dir command : string)
    (arguments : list string) :
  exists tl, events (ExecuteInDir w dir command arguments)
             = EvStart (ExecuteInDir_cmd w dir command arguments) :: tl.
Proof.
  destruct (spawn w (invocation w (ExecuteInDir_cmd w dir command arguments)))
    as [e|chunks exit] eqn:E.
  - rewrite (ExecuteInDir_refused _ _ _ _ _ E). now eexists.
  - rewrite (ExecuteInDir_runs _ _ _ _ _ _ E). destruct exit; now eexists.
Qed.

(** ** String execution *)

Lemma ExecuteString_unfold (w : World) (command p0 : string)
    (rest : list string) :
  Split command space = p0 :: rest ->
  ExecuteString w command = ExecuteString_wrap (Execute w p0 rest).
Proof. intro H. unfold ExecuteString. rewrite H. now destruct rest. Qed.

Lemma ExecuteString_wrap_out (r : Outcome) :
  out (ExecuteString_wrap r) = out r /\ events (ExecuteString_wrap r) = events r.
Proof. unfold ExecuteString_wrap. now destruct (err r). Qed.

Lemma ExecuteString_wrap_err (r : Outcome) :
  err (ExecuteString_wrap r)
  = match err r with
    | Some e => Some (Errorf ("error: " ++ ErrorText e ++ ", output: " ++ out r) e)
    | None => None
    end.
Proof. unfold ExecuteString_wrap. now destruct (err r). Qed.


(** * The claims *)

(** C1: [LoggedExecuteInDir] is claimed to give the launched process the
    inherited environment followed by the overlay, as [ExecuteInDir] does.
    Evaluated on a program that prints [MY_VAR] with the overlay
    [MY_VAR=some_value]: the command built by [LoggedExecuteInDir] leaves
    [Env] unset, so the process gets the inherited environment alone and
    prints [unset], where [ExecuteInDir] prints [some_value]. *)
Theorem LoggedExecuteInDir_omits_overlay :
  Env (LoggedExecuteInDir_cmd "" reliable_sink "printenv" ["MY_VAR"]) = None
  /\ environment (invocation world_printenv
       (LoggedExecuteInDir_cmd "" reliable_sink "printenv" ["MY_VAR"]))
     = ["PATH=/bin"]
  /\ environment (invocation world_printenv
       (ExecuteInDir_cmd world_printenv "" "printenv" ["MY_VAR"]))
     = ["PATH=/bin"; "MY_VAR=some_value"]
  /\ out (LoggedExecuteInDir world_printenv "" reliable_sink "printenv" ["MY_VAR"])
     = "unset"
  /\ out (ExecuteInDir world_printenv "" "printenv" ["MY_VAR"]) = "some_value".
Proof. repeat split; vm_compute; reflexivity. Qed.

(** C2, as stated, fails: the command started by [ExecuteAsync] has no
    buffer attached to its output, unlike the one of the blocking
    operations. *)
Lemma ExecuteAsync_attaches_no_buffer :
  Stdout (handle (ExecuteAsync world_hi "echo" ["hi"])) = None
  /\ Stdout (ExecuteInDir_cmd world_hi "" "echo" ["hi"]) = Some ToBuffer
  /\ Stdout (handle (ExecuteAsync world_hi "echo" ["hi"]))
     <> Stdout (ExecuteInDir_cmd world_hi "" "echo" ["hi"]).
Proof. repeat split; try reflexivity. discriminate. Qed.

(** C2, amended: [ExecuteAsyncInDir] and [ExecuteAsync] leave the standard
    output and standard error of the command unset (nothing is captured),
    issue exactly one request, the start, and never wait; after a successful
    start they return the running process and no error. *)
Theorem ExecuteAsyncInDir_starts_and_returns (w : World) (dir command : string)
    (arguments : list string) :
  let r := ExecuteAsyncInDir w dir command arguments in
  Stdout (handle r) = None
  /\ Stderr (handle r) = None
  /\ async_events r = [EvStart (handle r)]
  /\ (forall p, Start w (handle r) = inr p ->
                process r = Some p /\ async_err r = None)
  /\ ExecuteAsync w command arguments = ExecuteAsyncInDir w "" command arguments.
Proof.
  cbv zeta. unfold ExecuteAsyncInDir.
  destruct (ExecuteAsyncInDir_cmd_streams dir command arguments) as (Ho & He & _).
  destruct (Start w (ExecuteAsyncInDir_cmd dir command arguments)) as [e|p0] eqn:E;
    simpl; rewrite Ho, He; (split; [reflexivity|]); (split; [reflexivity|]);
    (split; [reflexivity|]); (split; [|reflexivity]);
    intros q Hq; rewrite E in Hq.
  - discriminate Hq.
  - inversion Hq; subst q. now split.
Qed.

Lemma ExecuteAsyncInDir_starts_and_returns_witness :
  process (ExecuteAsyncInDir world_hi "/tmp" "echo" ["hi"])
  = Some (mkProcess ["hi"; nl] None)
  /\ async_err (ExecuteAsyncInDir world_hi "/tmp" "echo" ["hi"]) = None.
Proof.
  destruct (ExecuteAsyncInDir_starts_and_returns world_hi "/tmp" "echo" ["hi"])
    as (_ & _ & _ & H & _).
  apply (H (mkProcess ["hi"; nl] None)). reflexivity.
Defined.

(** C3: [ExecuteString] on the empty string, and on a single space, is
    claimed to fail with the invalid-command error without reaching the
    operating system.  Evaluated where every launch is refused: the empty
    string splits into one empty token, [Execute] is called on it, a start
    is requested, and the error returned is the wrapped start failure. *)
Theorem ExecuteString_empty_reaches_Start :
  Split "" space = [""]
  /\ events (ExecuteString world_refusing "")
     = [EvStart (ExecuteInDir_cmd world_refusing "" "" [])]
  /\ option_map ErrorText (err (ExecuteString world_refusing ""))
     = Some ("error: could not start process: "
             ++ "executable file not found in $PATH, output: ")
  /\ InvalidCommand (err (ExecuteString world_refusing "")) "" = false
  /\ Split " " space = [""; ""]
  /\ events (ExecuteString world_refusing " ")
     = [EvStart (ExecuteInDir_cmd world_refusing "" "" [""])]
  /\ InvalidCommand (err (ExecuteString world_refusing " ")) " " = false.
Proof. repeat split; vm_compute; reflexivity. Qed.

(** C4, as stated, fails: where the launch is refused, [ExecuteString] on
    [echo hi] returns another error than [Execute] on [echo] and [hi]. *)
Lemma ExecuteString_error_differs_from_Execute :
  Split "echo hi" space = ["echo"; "hi"]
  /\ (out (ExecuteString world_refusing "echo hi"),
      err (ExecuteString world_refusing "echo hi"))
     <> (out (Execute world_refusing "echo" ["hi"]),
         err (Execute world_refusing "echo" ["hi"])).
Proof. split; [reflexivity|]. vm_compute. intro H. discriminate H. Qed.

(** C4, amended: for every command string whose tokens are a program name
    [p0] and arguments [rest], [ExecuteString] makes the same requests and
    returns the same output as [Execute p0 rest]; it returns no error when
    [Execute] returns none, and when [Execute] fails with [e] it returns [e]
    wrapped once more, the text being [error: ], the text of [e],
    [, output: ] and the output. *)
Theorem ExecuteString_delegates_to_Execute (w : World) (command p0 : string)
    (rest : list string) :
  Split command space = p0 :: rest ->
  out (ExecuteString w command) = out (Execute w p0 rest)
  /\ events (ExecuteString w command) = events (Execute w p0 rest)
  /\ err (ExecuteString w command)
     = match err (Execute w p0 rest) with
       | Some e =>
           Some (Errorf ("error: " ++ ErrorText e ++ ", output: "
                         ++ out (Execute w p0 rest)) e)
       | None => None
       end.
Proof.
  intro H. rewrite (ExecuteString_unfold w command p0 rest H).
  destruct (ExecuteString_wrap_out (Execute w p0 rest)) as [Ho Hev].
  repeat split; [exact Ho | exact Hev | apply ExecuteString_wrap_err].
Qed.

Lemma ExecuteString_delegates_to_Execute_witness :
  out (ExecuteString world_hi "echo hi") = out (Execute world_hi "echo" ["hi"])
  /\ events (ExecuteString world_hi "echo hi")
     = events (Execute world_hi "echo" ["hi"])
  /\ err (ExecuteString world_hi "echo hi")
     = match err (Execute world_hi "echo" ["hi"]) with
       | Some e =>
           Some (Errorf ("error: " ++ ErrorText e ++ ", output: "
                         ++ out (Execute world_hi "echo" ["hi"])) e)
       | None => None
       end.
Proof.
  apply (ExecuteString_delegates_to_Execute world_hi "echo hi" "echo" ["hi"]).
  reflexivity.
Defined.



(** C6: when the launched process ends with an exit error [e] (non-zero
    status or signal), [ExecuteInDir] returns everything the process emitted
    and an error wrapping [e] whose text holds the captured output;
    [LoggedExecuteInDir] returns the whole buffer and an error wrapping [e]
    whose text holds no output; with a writer that accepts every write that
    buffer is everything the process emitted. *)
Theorem execution_failure_is_reported (w : World) (dir : string) (writer : Sink)
    (command : string) (arguments : list string)
    (chunks : list bytes) (e : error) :
  (spawn w (invocation w (ExecuteInDir_cmd w dir command arguments))
   = Runs chunks (Some e) ->
   let r := ExecuteInDir w dir command arguments in
   out r = emitted chunks
   /\ err r = Some (Errorf ("process error: " ++ ErrorText e ++ nl
                            ++ "output: " ++ out r) e)
   /\ (exists e', err r = Some e' /\ ExecutionFailure e' e /\ Unwrap e' = Some e))
  /\ (spawn w (invocation w (LoggedExecuteInDir_cmd dir writer command arguments))
      = Runs chunks (Some e) ->
      let r := LoggedExecuteInDir w dir writer command arguments in
      out r = buffer (fst (copy (ToMultiWriter writer) new_output chunks))
      /\ err r = Some (Errorf ("process error: " ++ ErrorText e) e)
      /\ (exists e', err r = Some e' /\ ExecutionFailure e' e /\ Unwrap e' = Some e)
      /\ (always_accepts writer -> out r = emitted chunks)).
Proof.
  split; intros H r; unfold r.
  - rewrite (ExecuteInDir_runs _ _ _ _ _ _ H). simpl.
    repeat split. eexists; repeat split. now eexists.
  - rewrite (LoggedExecuteInDir_runs _ _ _ _ _ _ _ H). simpl.
    repeat split.
    + eexists; repeat split. exists "". now rewrite append_nil_r.
    + intro Hk. now rewrite (copy_accepting writer new_output chunks Hk).
Qed.

Lemma execution_failure_is_reported_witness :
  (out (ExecuteInDir world_failing "" "false" []) = "oops"
   /\ err (ExecuteInDir world_failing "" "false" [])
      = Some (Errorf ("process error: exit status 1" ++ nl ++ "output: oops")
                     (ErrorString "exit status 1")))
  /\ (out (LoggedExecuteInDir world_failing "" reliable_sink "false" []) = "oops"
      /\ err (LoggedExecuteInDir world_failing "" reliable_sink "false" [])
         = Some (Errorf "process error: exit status 1"
                        (ErrorString "exit status 1"))).
Proof.
  destruct (execution_failure_is_reported world_failing "" reliable_sink "false" []
              ["oops"] (ErrorString "exit status 1")) as [H1 H2].
  split.
  - destruct (H1 eq_refl) as (Ho & He & _). split; [exact Ho | exact He].
  - destruct (H2 eq_refl) as (_ & He & _ & Hall). split; [|exact He].
    apply Hall. intros seen p. reflexivity.
Defined.

(** C7: when the start is refused with [e], [ExecuteInDir] and
    [LoggedExecuteInDir] return the contents of the still empty buffer and
    an error, never success; the error wraps [e] with the text
    [could not start process: ], and no wait is requested. *)
Theorem start_failure_is_reported (w : World) (dir : string) (writer : Sink)
    (command : string) (arguments : list string) (e : error) :
  (spawn w (invocation w (ExecuteInDir_cmd w dir command arguments)) = Refused e ->
   let r := ExecuteInDir w dir command arguments in
   out r = buffer new_output
   /\ (exists e', err r = Some e' /\ StartFailure e' e /\ Unwrap e' = Some e)
   /\ events r = [EvStart (ExecuteInDir_cmd w dir command arguments)])
  /\ (spawn w (invocation w (LoggedExecuteInDir_cmd dir writer command arguments))
      = Refused e ->
      let r := LoggedExecuteInDir w dir writer command arguments in
      out r = buffer new_output
      /\ (exists e', err r = Some e' /\ StartFailure e' e /\ Unwrap e' = Some e)
      /\ events r = [EvStart (LoggedExecuteInDir_cmd dir writer command arguments)]
      /\ written r = "").
Proof.
  split; intros H r; unfold r.
  - rewrite (ExecuteInDir_refused _ _ _ _ _ H). simpl.
    repeat split. eexists; repeat split.
  - rewrite (LoggedExecuteInDir_refused _ _ _ _ _ _ H). simpl.
    repeat split. eexists; repeat split.
Qed.

Lemma start_failure_is_reported_witness :
  out (ExecuteInDir world_refusing "" "nosuch" ["-x"]) = ""
  /\ out (LoggedExecuteInDir world_refusing "/nowhere" closed_sink "nosuch" []) = "".
Proof.
  split.
  - destruct (start_failure_is_reported world_refusing "" closed_sink "nosuch" ["-x"]
                (ErrorString "executable file not found in $PATH")) as [H1 _].
    destruct (H1 eq_refl) as (Ho & _). exact Ho.
  - destruct (start_failure_is_reported world_refusing "/nowhere" closed_sink
                "nosuch" [] (ErrorString "executable file not found in $PATH"))
      as [_ H2].
    destruct (H2 eq_refl) as (Ho & _). exact Ho.
Defined.

(** C8, as stated, fails: with a writer whose writes fail, the buffer holds
    the chunk that the writer refused, so the returned output is not the
    byte sequence the writer accepted. *)
Lemma LoggedExecuteInDir_failing_sink_lags :
  out (LoggedExecuteInDir world_hi "" closed_sink "echo" ["hi"]) = "hi"
  /\ written (LoggedExecuteInDir world_hi "" closed_sink "echo" ["hi"]) = ""
  /\ written (LoggedExecuteInDir world_hi "" closed_sink "echo" ["hi"])
     <> out (LoggedExecuteInDir world_hi "" closed_sink "echo" ["hi"]).
Proof. repeat split; vm_compute; try reflexivity. discriminate. Qed.

(** C8, amended: for every run of [LoggedExecuteInDir] with a writer, each
    chunk is written to the buffer and then to the writer in the same call
    and in emission order; the bytes the writer accepted are always a prefix
    of the returned output; they equal it byte for byte when the call
    returns no error, and when the writer accepts every write, in which case
    both are everything the process emitted. *)
Theorem LoggedExecuteInDir_sink_follows_buffer (w : World) (dir : string)
    (writer : Sink) (command : string) (arguments : list string) :
  let r := LoggedExecuteInDir w dir writer command arguments in
  is_prefix (written r) (out r)
  /\ (err r = None -> written r = out r)
  /\ (always_accepts writer ->
      written r = out r
      /\ forall chunks exit,
           spawn w (invocation w
                      (LoggedExecuteInDir_cmd dir writer command arguments))
           = Runs chunks exit ->
           out r = emitted chunks).
Proof.
  intro r; unfold r.
  destruct (spawn w (invocation w
              (LoggedExecuteInDir_cmd dir writer command arguments)))
    as [e|chunks exit] eqn:E.
  - rewrite (LoggedExecuteInDir_refused _ _ _ _ _ _ E). simpl.
    split; [now exists ""|]. split; [discriminate|].
    intros _. split; [reflexivity | intros ? ? Hc; discriminate Hc].
  - rewrite (LoggedExecuteInDir_runs _ _ _ _ _ _ _ E). cbv zeta.
    destruct (copy_multi_level writer chunks new_output eq_refl) as [Hok Hpre].
    split; [|split].
    + destruct exit as [x|]; [exact Hpre|].
      destruct (snd (copy (ToMultiWriter writer) new_output chunks));
        exact Hpre.
    + destruct exit as [x|]; [discriminate|].
      destruct (snd (copy (ToMultiWriter writer) new_output chunks));
        [discriminate|].
      intros _. simpl. symmetry. now apply Hok.
    + intro Hk. rewrite (copy_accepting writer new_output chunks Hk). simpl.
      split; [now destruct exit|].
      intros c x Hc. inversion Hc; subst. now destruct x.
Qed.

Lemma LoggedExecuteInDir_sink_follows_buffer_witness :
  written (LoggedExecuteInDir world_hi "" reliable_sink "echo" ["hi"])
  = out (LoggedExecuteInDir world_hi "" reliable_sink "echo" ["hi"])
  /\ out (LoggedExecuteInDir world_hi "" reliable_sink "echo" ["hi"])
     = emitted ["hi"; nl].
Proof.
  destruct (LoggedExecuteInDir_sink_follows_buffer world_hi "" reliable_sink
              "echo" ["hi"]) as (_ & Hnoerr & Hall).
  split.
  - apply Hnoerr. reflexivity.
  - assert (Hk : always_accepts reliable_sink) by (intros seen p; reflexivity).
    destruct (Hall Hk) as [_ Hout].
    apply (Hout ["hi"; nl] None). reflexivity.
Defined.



(** C10: for every input string, the empty one included, the split yields at
    least one token, so [ExecuteString] never takes its zero-token branch:
    it always equals the wrapped result of [Execute] on the first token and
    the remaining ones, always requests a start of a command whose argument
    vector is the token list, and never returns the invalid-command
    error. *)
Theorem ExecuteString_always_executes (w : World) (command : string) :
  exists p0 rest cmd tl,
    Split command space = p0 :: rest
    /\ ExecuteString w command = ExecuteString_wrap (Execute w p0 rest)
    /\ events (ExecuteString w command) = EvStart cmd :: tl
    /\ Args cmd = p0 :: rest
    /\ InvalidCommand (err (ExecuteString w command)) command = false.
Proof.
  destruct (Split command space) as [|p0 rest] eqn:E;
    [now destruct (Split_nonempty command space)|].
  destruct (ExecuteInDir_first_event w "" p0 rest) as [tl Htl].
  pose proof (ExecuteInDir_cmd_Args w "" p0 rest) as Hargs.
  exists p0, rest, (ExecuteInDir_cmd w "" p0 rest), tl.
  rewrite (ExecuteString_unfold w command p0 rest E).
  destruct (ExecuteString_wrap_out (Execute w p0 rest)) as [_ Hev].
  rewrite Hev, ExecuteString_wrap_err. unfold Execute.
  repeat split; try assumption.
  now destruct (err (ExecuteInDir w "" p0 rest)).
Qed.

(** * Further properties of the package [process] *)

Lemma Split_tokens_no_sep (s : string) (sep : ascii) :
  Forall (fun t => Count t sep = 0) (Split s sep).
Proof.
  induction s as [|c s IH]; simpl.
  - now repeat constructor.
  - destruct (Ascii.eqb c sep) eqn:E.
    + now constructor.
    + revert IH. destruct (Split s sep) as [|t ts] eqn:E2; intro IH;
        [now destruct (Split_nonempty s sep)|].
      inversion IH; subst. constructor; [|assumption].
      simpl. now rewrite E.
Qed.

Lemma Split_no_sep (s : string) (sep : ascii) :
  Count s sep = 0 -> Split s sep = [s].
Proof.
  induction s as [|c s IH]; simpl; [reflexivity|].
  destruct (Ascii.eqb c sep); simpl; [discriminate|].
  intro H. now rewrite (IH H).
Qed.

Lemma Split_Join (parts : list string) (sep : ascii) :
  parts <> [] ->
  Forall (fun t => Count t sep = 0) parts ->
  Split (Join parts sep) sep = parts.
Proof.
  induction parts as [|t ts IH]; intros Hne Hall; [now destruct Hne|].
  inversion Hall as [|? ? Ht Hts]; subst.
  destruct ts as [|t' ts'].
  - simpl. now apply Split_no_sep.
  - change (Join (t :: t' :: ts') sep)
      with (t ++ String sep (Join (t' :: ts') sep)).
    rewrite Split_app, (Split_no_sep t sep Ht), IH; [reflexivity| |assumption].
    discriminate.
Qed.

Lemma write_buffer (w : Writer) (o : Output) (p : bytes) :
  buffer (fst (write w o p)) = buffer o ++ p.
Proof.
  destruct w as [|k]; simpl; [reflexivity|].
  destruct (k (sink_log o) p) as [n [e|]]; simpl; [reflexivity|].
  now destruct (Nat.eqb n (String.length p)).
Qed.

Lemma copy_buffer_prefix (w : Writer) (chunks : list bytes) (o : Output) :
  is_prefix (buffer (fst (copy w o chunks))) (buffer o ++ emitted chunks).
Proof.
  revert o; induction chunks as [|p rest IH]; intro o.
  - simpl. now exists "".
  - cbn [copy emitted]. pose proof (write_buffer w o p) as Hb.
    destruct (write w o p) as [o' [e|]]; simpl in Hb |- *.
    + exists (emitted rest). now rewrite Hb, append_assoc.
    + destruct (IH o') as [r Hr]. exists r.
      now rewrite <- Hr, Hb, append_assoc.
Qed.

(** X1: [ExecuteInDir] returns no error exactly when the process was started
    and ended without exit error; it then returns everything the process
    emitted, after one start and one wait. *)
Theorem ExecuteInDir_succeeds_iff_exit_zero (w : World) (dir command : string)
    (arguments : list string) :
  let cmd := ExecuteInDir_cmd w dir command arguments in
  let r := ExecuteInDir w dir command arguments in
  (forall chunks, spawn w (invocation w cmd) = Runs chunks None ->
     out r = emitted chunks /\ err r = None
     /\ events r = [EvStart cmd; EvWait cmd])
  /\ (err r = None ->
      exists chunks, spawn w (invocation w cmd) = Runs chunks None
                     /\ out r = emitted chunks).
Proof.
  intros cmd r; unfold cmd, r. split.
  - intros chunks H. now rewrite (ExecuteInDir_runs _ _ _ _ _ _ H).
  - destruct (spawn w (invocation w (ExecuteInDir_cmd w dir command arguments)))
      as [e|chunks exit] eqn:E.
    + rewrite (ExecuteInDir_refused _ _ _ _ _ E). discriminate.
    + rewrite (ExecuteInDir_runs _ _ _ _ _ _ E).
      destruct exit; [discriminate|]. intros _. now exists chunks.
Qed.

Lemma ExecuteInDir_succeeds_iff_exit_zero_witness :
  (out (ExecuteInDir world_hi "/tmp" "echo" ["hi"]) = emitted ["hi"; nl]
   /\ err (ExecuteInDir world_hi "/tmp" "echo" ["hi"]) = None)
  /\ exists chunks,
       spawn world_hi (invocation world_hi
                         (ExecuteInDir_cmd world_hi "/tmp" "echo" ["hi"]))
       = Runs chunks None
       /\ out (ExecuteInDir world_hi "/tmp" "echo" ["hi"]) = emitted chunks.
Proof.
  destruct (ExecuteInDir_succeeds_iff_exit_zero world_hi "/tmp" "echo" ["hi"])
    as [H1 H2].
  split.
  - destruct (H1 ["hi"; nl] eq_refl) as (Ho & He & _). now split.
  - apply H2. reflexivity.
Defined.


(** X4: when the start is refused with [e], [ExecuteAsyncInDir] returns the
    command it built, no process, and an error wrapping [e] whose text
    begins with [process error: ] (not with [could not start process: ], as
    the blocking entry points have it); only the start was requested. *)
Theorem ExecuteAsyncInDir_start_failure (w : World) (dir command : string)
    (args : list string) (e : error) :
  spawn w (invocation w (ExecuteAsyncInDir_cmd dir command args)) = Refused e ->
  let r := ExecuteAsyncInDir w dir command args in
  handle r = ExecuteAsyncInDir_cmd dir command args
  /\ process r = None
  /\ async_err r = Some (Errorf ("process error: " ++ ErrorText e) e)
  /\ async_events r = [EvStart (handle r)].
Proof.
  intros H r; unfold r, ExecuteAsyncInDir, Start. now rewrite H.
Qed.

Lemma ExecuteAsyncInDir_start_failure_witness :
  async_err (ExecuteAsyncInDir world_refusing "" "nosuch" [])
  = Some (Errorf "process error: executable file not found in $PATH"
                 (ErrorString "executable file not found in $PATH")).
Proof.
  apply (ExecuteAsyncInDir_start_failure world_refusing "" "nosuch" []
           (ErrorString "executable file not found in $PATH")).
  reflexivity.
Defined.

(** X5: when the process ends without exit error, [LoggedExecuteInDir]
    returns no error exactly when every write to the buffer and the writer
    went through; a failed write of the writer, [e], makes the call fail
    with an error wrapping [e], although the process succeeded. *)
Theorem LoggedExecuteInDir_reports_sink_failure (w : World) (dir : string)
    (writer : Sink) (command : string) (args : list string)
    (chunks : list bytes) :
  spawn w (invocation w (LoggedExecuteInDir_cmd dir writer command args))
  = Runs chunks None ->
  let r := LoggedExecuteInDir w dir writer command args in
  let cerr := snd (copy (ToMultiWriter writer) new_output chunks) in
  (err r = None <-> cerr = None)
  /\ (forall e, cerr = Some e ->
                err r = Some (Errorf ("process error: " ++ ErrorText e) e)).
Proof.
  intros H r cerr; unfold r, cerr.
  rewrite (LoggedExecuteInDir_runs _ _ _ _ _ _ _ H). cbv zeta.
  destruct (snd (copy (ToMultiWriter writer) new_output chunks)) as [x|]; simpl.
  - split; [split; discriminate|]. intros e He. now inversion He.
  - split; [now split|]. intros e He. discriminate He.
Qed.

Lemma LoggedExecuteInDir_reports_sink_failure_witness :
  err (LoggedExecuteInDir world_hi "" closed_sink "echo" ["hi"])
  = Some (Errorf "process error: closed pipe" (ErrorString "closed pipe")).
Proof.
  destruct (LoggedExecuteInDir_reports_sink_failure world_hi "" closed_sink
              "echo" ["hi"] ["hi"; nl] eq_refl) as [_ H].
  apply (H (ErrorString "closed pipe")). reflexivity.
Defined.

(** X6: whatever the writer does, the output [LoggedExecuteInDir] returns is
    a prefix of what the process emitted, and the bytes the writer accepted
    are a prefix of that output: nothing is invented or reordered. *)
Theorem LoggedExecuteInDir_output_is_prefix (w : World) (dir : string)
    (writer : Sink) (command : string) (args : list string)
    (chunks : list bytes) (exit : option error) :
  spawn w (invocation w (LoggedExecuteInDir_cmd dir writer command args))
  = Runs chunks exit ->
  let r := LoggedExecuteInDir w dir writer command args in
  is_prefix (out r) (emitted chunks) /\ is_prefix (written r) (out r).
Proof.
  intros H r; unfold r.
  rewrite (LoggedExecuteInDir_runs _ _ _ _ _ _ _ H). cbv zeta.
  pose proof (copy_buffer_prefix (ToMultiWriter writer) chunks new_output) as Hb.
  destruct (copy_multi_level writer chunks new_output eq_refl) as [_ Hs].
  simpl in Hb.
  destruct exit as [x|];
    [|destruct (snd (copy (ToMultiWriter writer) new_output chunks))];
    simpl; now split.
Qed.

Lemma LoggedExecuteInDir_output_is_prefix_witness :
  is_prefix (out (LoggedExecuteInDir world_hi "" closed_sink "echo" ["hi"]))
            (emitted ["hi"; nl])
  /\ is_prefix (written (LoggedExecuteInDir world_hi "" closed_sink "echo" ["hi"]))
               (out (LoggedExecuteInDir world_hi "" closed_sink "echo" ["hi"])).
Proof.
  apply (LoggedExecuteInDir_output_is_prefix world_hi "" closed_sink "echo"
           ["hi"] ["hi"; nl] None).
  reflexivity.
Defined.

(** X7: when the process started by [ExecuteString] ends with exit error
    [e] after emitting [B], the text of the returned error holds [B] twice,
    once from [ExecuteInDir] and once from [ExecuteString], and unwrapping
    the error twice gives [e]. *)
Theorem ExecuteString_error_repeats_output (w : World) (command p0 : string)
    (rest : list string) (chunks : list bytes) (e : error) :
  Split command space = p0 :: rest ->
  spawn w (invocation w (ExecuteInDir_cmd w "" p0 rest)) = Runs chunks (Some e) ->
  let B := emitted chunks in
  out (ExecuteString w command) = B
  /\ option_map ErrorText (err (ExecuteString w command))
     = Some ("error: " ++ ("process error: " ++ ErrorText e ++ nl
                           ++ "output: " ++ B) ++ ", output: " ++ B)
  /\ (exists e1 e2, err (ExecuteString w command) = Some e1
                    /\ Unwrap e1 = Some e2 /\ Unwrap e2 = Some e).
Proof.
  intros Hs Hr B; unfold B.
  rewrite (ExecuteString_unfold w command p0 rest Hs).
  unfold Execute, ExecuteString_wrap.
  rewrite (ExecuteInDir_runs _ _ _ _ _ _ Hr). simpl.
  repeat split. do 2 eexists. repeat split.
Qed.

Lemma ExecuteString_error_repeats_output_witness :
  option_map ErrorText (err (ExecuteString world_failing "false"))
  = Some ("error: " ++ ("process error: exit status 1" ++ nl
                        ++ "output: oops") ++ ", output: oops").
Proof.
  destruct (ExecuteString_error_repeats_output world_failing "false" "false" []
              ["oops"] (ErrorString "exit status 1") eq_refl eq_refl)
    as (_ & H & _).
  exact H.
Defined.

(** X8: a command line made by joining a program name and arguments with
    single spaces, none of them holding a space, is executed as that program
    with those arguments: [ExecuteString] makes the requests of [Execute]
    and returns its output. *)
Theorem ExecuteString_of_joined_tokens (w : World) (p0 : string)
    (rest : list string) :
  Forall (fun t => Count t space = 0) (p0 :: rest) ->
  Split (Join (p0 :: rest) space) space = p0 :: rest
  /\ ExecuteString w (Join (p0 :: rest) space)
     = ExecuteString_wrap (Execute w p0 rest)
  /\ out (ExecuteString w (Join (p0 :: rest) space)) = out (Execute w p0 rest)
  /\ events (ExecuteString w (Join (p0 :: rest) space))
     = events (Execute w p0 rest).
Proof.
  intro Hall.
  assert (Hs : Split (Join (p0 :: rest) space) space = p0 :: rest)
    by (apply Split_Join; [discriminate | exact Hall]).
  rewrite (ExecuteString_unfold w _ p0 rest Hs).
  destruct (ExecuteString_wrap_out (Execute w p0 rest)) as [Ho He].
  now repeat split.
Qed.

Lemma ExecuteString_of_joined_tokens_witness :
  ExecuteString world_hi (Join ["ls"; "-l"; "/tmp"] space)
  = ExecuteString_wrap (Execute world_hi "ls" ["-l"; "/tmp"]).
Proof.
  destruct (ExecuteString_of_joined_tokens world_hi "ls" ["-l"; "/tmp"])
    as (_ & H & _).
  - repeat constructor.
  - exact H.
Defined.

(** X9: no entry of the argument vector that [ExecuteString] passes to the
    process holds a space: the name as typed and every argument of the
    command it starts are free of spaces, so an argument with a space in it
    cannot be expressed. *)
Theorem ExecuteString_arguments_hold_no_space (w : World) (command : string) :
  exists cmd tl,
    events (ExecuteString w command) = EvStart cmd :: tl
    /\ Forall (fun t => Count t space = 0) (Args cmd).
Proof.
  pose proof (Split_tokens_no_sep command space) as Hall.
  destruct (Split command space) as [|p0 rest] eqn:E;
    [now destruct (Split_nonempty command space)|].
  rewrite (ExecuteString_unfold w command p0 rest E).
  destruct (ExecuteString_wrap_out (Execute w p0 rest)) as [_ Hev].
  destruct (ExecuteInDir_first_event w "" p0 rest) as [tl Htl].
  pose proof (ExecuteInDir_cmd_Args w "" p0 rest) as Hargs.
  exists (ExecuteInDir_cmd w "" p0 rest), tl.
  rewrite Hev, Hargs. unfold Execute.
  split; [exact Htl | exact Hall].
Qed.

(** * Properties of the package [root] *)

Module root_facts.
Import root.

(** ** Taints *)

Lemma getTaint_cases (quote : string -> string) (o : Opts) :
  (supported (TaintEffect o) = true
   /\ exists e, label e = TaintEffect o
                /\ getTaint quote o = inr (mkTaint (TaintKey o) (TaintValue o) e))
  \/ (supported (TaintEffect o) = false
      /\ getTaint quote o = inl (unsupported_effect quote (TaintEffect o))).
Proof.
  unfold getTaint, supported. simpl.
  destruct (String.eqb (TaintEffect o) "NoSchedule") eqn:E1;
    [|destruct (String.eqb (TaintEffect o) "NoExecute") eqn:E2;
      [|destruct (String.eqb (TaintEffect o) "PreferNoSchedule") eqn:E3]];
    simpl.
  - left. split; [reflexivity|]. eexists. split; [|reflexivity].
    symmetry. now apply String.eqb_eq.
  - left. split; [reflexivity|]. eexists. split; [|reflexivity].
    symmetry. now apply String.eqb_eq.
  - left. split; [reflexivity|]. eexists. split; [|reflexivity].
    symmetry. now apply String.eqb_eq.
  - right. now split.
Qed.

(** X10: [getTaint] succeeds exactly on the three effects of its switch,
    compared byte for byte; the taint it returns carries the key and the
    value of the options unchanged and the constant picked under the label
    equal to the option. *)
Theorem getTaint_succeeds_on_supported_effects (quote : string -> string)
    (o : Opts) :
  (supported (TaintEffect o) = true -> exists t, getTaint quote o = inr t)
  /\ (forall t, getTaint quote o = inr t ->
        supported (TaintEffect o) = true
        /\ Key t = TaintKey o
        /\ Value t = TaintValue o
        /\ label (TEffect t) = TaintEffect o).
Proof.
  destruct (getTaint_cases quote o) as [(Hs & e & Hl & Hg) | (Hs & Hg)];
    rewrite Hg, Hs.
  - split; [intros _; now eexists|].
    intros t Ht. inversion Ht; subst t. now repeat split.
  - split; [discriminate|]. intros t Ht. discriminate Ht.
Qed.

Lemma getTaint_succeeds_on_supported_effects_witness :
  (exists t, getTaint (Quote all_fine) sample_opts = inr t)
  /\ label (TEffect (mkTaint "virtual-kubelet.io/provider" "hpk"
                             TaintEffectNoSchedule))
     = TaintEffect sample_opts.
Proof.
  destruct (getTaint_succeeds_on_supported_effects (Quote all_fine) sample_opts)
    as [H1 H2].
  split.
  - apply H1. reflexivity.
  - destruct (H2 (mkTaint "virtual-kubelet.io/provider" "hpk"
                          TaintEffectNoSchedule) eq_refl) as (_ & _ & _ & H).
    exact H.
Defined.

(** X11: on every other effect, the empty one and another spelling of a
    supported one included, [getTaint] returns no taint and the invalid-input
    error whose text quotes the effect. *)
Theorem getTaint_rejects_other_effects (quote : string -> string) (o : Opts) :
  supported (TaintEffect o) = false ->
  getTaint quote o
  = inl (ErrorString ("taint effect " ++ quote (TaintEffect o)
                      ++ " is not supported")).
Proof.
  intro H.
  destruct (getTaint_cases quote o) as [(Hs & _) | (_ & Hg)];
    [rewrite H in Hs; discriminate Hs | exact Hg].
Qed.

Lemma getTaint_rejects_other_effects_witness :
  getTaint (Quote all_fine) (set_TaintEffect sample_opts "noschedule")
  = inl (ErrorString ("taint effect " ++ dquote ++ "noschedule" ++ dquote
                      ++ " is not supported"))
  /\ getTaint (Quote all_fine) (set_TaintEffect sample_opts "")
     = inl (ErrorString ("taint effect " ++ dquote ++ dquote
                         ++ " is not supported")).
Proof.
  split.
  - apply (getTaint_rejects_other_effects (Quote all_fine)
             (set_TaintEffect sample_opts "noschedule")).
    reflexivity.
  - apply (getTaint_rejects_other_effects (Quote all_fine)
             (set_TaintEffect sample_opts "")).
    reflexivity.
Defined.

(** ** Flags *)

Lemma defined_app (flags more : FlagSet) (name : string) :
  defined (flags ++ more)%list name
  = orb (defined flags name) (defined more name).
Proof. unfold defined. apply existsb_app. Qed.

Lemma register_step (flags acc : FlagSet) (f : Flag) (c : Opts) :
  (AddFlag (flags ++ acc)%list f >>= fun fl => Some (fl, c))
  = if orb (defined flags (Name f)) (defined acc (Name f)) then None
    else Some ((flags ++ (acc ++ [f]))%list, c).
Proof.
  unfold AddFlag, bind. rewrite defined_app.
  destruct (orb (defined flags (Name f)) (defined acc (Name f)));
    [reflexivity | now rewrite app_assoc].
Qed.

Lemma installFlags_fresh (api : ApiDefaults) (c : Opts) :
  installFlags api [] c = Some (default_flags api, defaults api c).
Proof. reflexivity. Qed.

(** What [installFlags] comes to: a panic when one of its names is already
    defined, else the twelve flags added in order and every bound field set
    to its default. *)
Lemma installFlags_unfold (api : ApiDefaults) (flags : FlagSet) (c : Opts) :
  installFlags api flags c
  = if existsb (defined flags) flag_names then None
    else Some ((flags ++ default_flags api)%list, defaults api c).
Proof.
  unfold installFlags, flag_names. cbn [existsb].
  rewrite <- (app_nil_r flags) at 1.
  unfold StringVar, IntVar, BoolVar, DurationVar.
  repeat (cbn [bind fst snd]; rewrite register_step;
          cbn [Name defined existsb app String.eqb Ascii.eqb Bool.eqb orb];
          match goal with
          | |- context [defined flags ?n] => destruct (defined flags n)
          end; cbn [orb bind]; [reflexivity|]).
  reflexivity.
Qed.

(** X12: [installFlags] panics exactly when the flag set already defines one
    of its twelve names; otherwise the flag set keeps its flags and gains
    those twelve names, in the order of the source. *)
Theorem installFlags_panics_iff_redefinition (api : ApiDefaults)
    (flags : FlagSet) (c : Opts) :
  (installFlags api flags c = None <-> existsb (defined flags) flag_names = true)
  /\ (forall st, installFlags api flags c = Some st ->
                 map Name (fst st) = (map Name flags ++ flag_names)%list).
Proof.
  rewrite installFlags_unfold.
  destruct (existsb (defined flags) flag_names).
  - split; [now split | discriminate].
  - split; [split; discriminate|].
    intros st Hst. inversion Hst; subst st. simpl. now rewrite map_app.
Qed.

Lemma installFlags_panics_iff_redefinition_witness :
  installFlags sample_api [mkFlag "nodename" (StringValue "n") "taken"]
               sample_opts = None
  /\ map Name (default_flags sample_api) = flag_names.
Proof.
  split.
  - apply (installFlags_panics_iff_redefinition sample_api
             [mkFlag "nodename" (StringValue "n") "taken"] sample_opts).
    reflexivity.
  - destruct (installFlags_panics_iff_redefinition sample_api [] sample_opts)
      as [_ H].
    apply (H (default_flags sample_api, defaults sample_api sample_opts)).
    reflexivity.
Defined.

(** X13: when it does not panic, [installFlags] leaves every field of the
    options that is bound to a flag at the flag's default, whatever the
    field held before; the listen port, bound to no flag, is the only field
    that survives. *)
Theorem installFlags_resets_bound_options (api : ApiDefaults)
    (flags : FlagSet) (c : Opts) (st : FlagSet * Opts) :
  installFlags api flags c = Some st ->
  snd st = defaults api c
  /\ ListenPort (snd st) = ListenPort c
  /\ (forall c', ListenPort c' = ListenPort c ->
                 installFlags api flags c' = Some st).
Proof.
  rewrite installFlags_unfold.
  destruct (existsb (defined flags) flag_names) eqn:E; [discriminate|].
  intro H; inversion H; subst st. simpl.
  repeat split. intros c' Hp. rewrite installFlags_unfold, E.
  unfold defaults. now rewrite Hp.
Qed.

Lemma installFlags_resets_bound_options_witness :
  installFlags sample_api [] (set_PodSyncWorkers sample_opts 0)
  = Some (default_flags sample_api, defaults sample_api sample_opts).
Proof.
  destruct (installFlags_resets_bound_options sample_api [] sample_opts
              (default_flags sample_api, defaults sample_api sample_opts)
              eq_refl) as (_ & _ & H).
  apply H. reflexivity.
Defined.

(** X14: [NewCommand] never panics; the command carries the twelve flags
    and options that hold the defaults, so that of the options passed in
    only the listen port reaches the command. *)
Theorem NewCommand_keeps_only_ListenPort (api : ApiDefaults) (name : string)
    (c : Opts) :
  exists cmd,
    NewCommand api name c = Some cmd
    /\ Use cmd = name
    /\ map Name (Flags cmd) = flag_names
    /\ bound cmd = defaults api c
    /\ (forall c', ListenPort c' = ListenPort c ->
                   NewCommand api name c' = Some cmd).
Proof.
  unfold NewCommand. rewrite installFlags_fresh. cbn [bind fst snd].
  eexists. split; [reflexivity|]. repeat split.
  intros c' Hp. rewrite installFlags_fresh. cbn [bind fst snd].
  unfold defaults. now rewrite Hp.
Qed.

Lemma NewCommand_keeps_only_ListenPort_witness :
  exists cmd,
    NewCommand sample_api "hpk-kubelet" sample_opts = Some cmd
    /\ NewCommand sample_api "hpk-kubelet" (set_TaintEffect sample_opts "bogus")
       = Some cmd.
Proof.
  destruct (NewCommand_keeps_only_ListenPort sample_api "hpk-kubelet" sample_opts)
    as (cmd & H1 & _ & _ & _ & H2).
  exists cmd. split; [exact H1|]. apply H2. reflexivity.
Defined.

(** ** Start-up *)

(** Case analysis on every call whose result [runRootCommand] inspects. *)
Ltac run_cases :=
  repeat match goal with
         | |- context [match ?x with _ => _ end] => destruct x eqn:?
         end.

Ltac unfold_run := unfold runRootCommand, registerAndRun, waitFor.

(** After the case analysis, the calls are collected. *)
Ltac collect := cbn [step deferred fst snd app Wrap Wrapf].

(** X15: the command refuses to run with zero pod synchronization workers
    and then calls nothing; any other number, a negative one included, goes
    on to [runRootCommand], whose first call fetches the configuration. *)
Theorem RunE_rejects_zero_workers_only (k : Collaborators) (c : Opts) :
  (PodSyncWorkers c = 0%Z ->
   RunE k c = (Some (ErrorString "pod sync workers must be greater than 0"), []))
  /\ ((PodSyncWorkers c < 0)%Z \/ (0 < PodSyncWorkers c)%Z ->
      RunE k c = runRootCommand k c
      /\ exists tl, snd (RunE k c) = StGetConfig :: tl).
Proof.
  unfold RunE. split.
  - intro H. now rewrite H.
  - intro H. destruct (Z.eqb_spec (PodSyncWorkers c) 0) as [E|E]; [lia|].
    split; [reflexivity|]. unfold runRootCommand.
    cbn [step snd]. now eexists.
Qed.

Lemma RunE_rejects_zero_workers_only_witness :
  RunE all_fine (set_PodSyncWorkers sample_opts 0)
  = (Some (ErrorString "pod sync workers must be greater than 0"), [])
  /\ RunE all_fine (set_PodSyncWorkers sample_opts (-1))
     = runRootCommand all_fine (set_PodSyncWorkers sample_opts (-1)).
Proof.
  split.
  - apply (RunE_rejects_zero_workers_only all_fine
             (set_PodSyncWorkers sample_opts 0)).
    reflexivity.
  - destruct (RunE_rejects_zero_workers_only all_fine
                (set_PodSyncWorkers sample_opts (-1))) as [_ H].
    apply H. left. reflexivity.
Defined.

(** X16: when the DNS endpoint is fetched but has no subsets, or its first
    subset has no addresses, [runRootCommand] stops there and returns no
    error: the error it wraps at that point is nil, and wrapping nil gives
    nil.  No provider is created and no server is started. *)
Theorem runRootCommand_empty_dns_returns_nil (k : Collaborators) (c : Opts)
    (ep : Endpoints) :
  GetConfig k = None ->
  NewForConfig k = None ->
  NewResourceManager k = None ->
  GetEndpoints k = inr ep ->
  Subsets ep = []
  \/ (exists s ss, Subsets ep = s :: ss /\ Addresses s = []) ->
  runRootCommand k c
  = (None, [StGetConfig; StNewForConfig; StNewResourceManager;
            StStartInformers; StGetEndpoints]).
Proof.
  intros H1 H2 H3 H4 H5. unfold runRootCommand. rewrite H1, H2, H3, H4.
  destruct H5 as [H5 | (s & ss & H5 & H6)]; rewrite H5; [reflexivity|].
  now rewrite H6.
Qed.

Lemma runRootCommand_empty_dns_returns_nil_witness :
  runRootCommand dns_without_subsets sample_opts
  = (None, [StGetConfig; StNewForConfig; StNewResourceManager;
            StStartInformers; StGetEndpoints]).
Proof.
  apply (runRootCommand_empty_dns_returns_nil dns_without_subsets sample_opts
           (mkEndpoints [])); try reflexivity.
  left. reflexivity.
Defined.

Lemma registerAndRun_no_http (k : Collaborators) (c : Opts) :
  filter is_cancel (snd (registerAndRun k c)) = []
  /\ filter (is_served k) (snd (registerAndRun k c)) = [].
Proof. unfold_run. run_cases; collect; now split. Qed.

(** X17: the HTTP server is cancelled exactly when it was set up: the calls
    of [runRootCommand] hold one cancellation for a set-up that succeeded
    and none otherwise, and the cancellation is then the last call of all,
    whichever way the function returns. *)
Theorem runRootCommand_cancels_what_it_serves (k : Collaborators) (c : Opts) :
  let steps := snd (runRootCommand k c) in
  let n := List.length (filter is_cancel steps) in
  n = List.length (filter (is_served k) steps)
  /\ n <= 1
  /\ (n = 1 -> exists pre, steps = (pre ++ [StCancelHTTP])%list).
Proof.
  cbv zeta.
  destruct (registerAndRun_no_http k c) as [Hc Hs].
  unfold runRootCommand.
  run_cases; collect; cbn [filter is_cancel is_served List.length];
    rewrite ?filter_app, ?Hc, ?Hs;
    repeat match goal with
           | H : setupHTTPServer k _ = _ |- _ => rewrite H
           end;
    cbn [filter is_cancel app List.length];
    (split; [reflexivity|]); (split; [lia|]); intro H; try discriminate H.
  eexists (_ :: _ :: _ :: _ :: _ :: _ :: _ :: _ :: _). reflexivity.
Qed.

Lemma runRootCommand_cancels_what_it_serves_witness :
  exists pre,
    snd (runRootCommand all_fine sample_opts) = (pre ++ [StCancelHTTP])%list.
Proof.
  destruct (runRootCommand_cancels_what_it_serves all_fine sample_opts)
    as (_ & _ & H).
  apply H. reflexivity.
Defined.

Lemma nodeTaint_cases (k : Collaborators) (c : Opts) :
  (DisableTaint c = true /\ nodeTaint k c = inr None)
  \/ (DisableTaint c = false /\ supported (TaintEffect c) = true
      /\ exists t, getTaint (Quote k) c = inr t /\ nodeTaint k c = inr (Some t))
  \/ (DisableTaint c = false /\ supported (TaintEffect c) = false
      /\ nodeTaint k c = inl (unsupported_effect (Quote k) (TaintEffect c))).
Proof.
  unfold nodeTaint. destruct (DisableTaint c); [now left|]. right.
  destruct (getTaint_cases (Quote k) c) as [(Hs & e & _ & Hg) | (Hs & Hg)];
    rewrite Hg.
  - left. repeat split; [exact Hs|]. now eexists.
  - right. now repeat split.
Qed.

(** X18: the virtual node is created under the node name of the options;
    with taints disabled it gets no taint, whatever the taint options hold,
    and otherwise it gets the taint [getTaint] returns. *)
Theorem virtual_node_taint (k : Collaborators) (c : Opts) (name : string)
    (t : option Taint) :
  In (StCreateVirtualNode name t) (snd (runRootCommand k c)) ->
  name = NodeName c
  /\ (DisableTaint c = true -> t = None)
  /\ (DisableTaint c = false ->
      exists x, getTaint (Quote k) c = inr x /\ t = Some x).
Proof.
  unfold_run. intro H.
  assert (Hn : name = NodeName c /\ nodeTaint k c = inr t).
  { revert H. run_cases; collect; rewrite ?in_app_iff; cbn [In];
      intro H; repeat destruct H as [H|H];
      try discriminate H; try contradiction; now inversion H. }
  destruct Hn as [Hn Ht]. split; [exact Hn|].
  destruct (nodeTaint_cases k c)
    as [(Hd & Hv) | [(Hd & _ & x & Hg & Hv) | (Hd & _ & Hv)]];
    rewrite Hv in Ht; try discriminate Ht; inversion Ht; subst t;
    (split; [intro Hx | intro Hx]); try reflexivity;
    try (rewrite Hd in Hx; discriminate Hx).
  now exists x.
Qed.

Lemma virtual_node_taint_witness :
  "hpk-node" = NodeName sample_opts
  /\ exists x, getTaint (Quote all_fine) sample_opts = inr x
               /\ Some (mkTaint "virtual-kubelet.io/provider" "hpk"
                                TaintEffectNoSchedule) = Some x.
Proof.
  destruct (virtual_node_taint all_fine sample_opts "hpk-node"
              (Some (mkTaint "virtual-kubelet.io/provider" "hpk"
                             TaintEffectNoSchedule))) as (Hn & _ & Ht).
  - vm_compute. tauto.
  - split; [exact Hn|]. apply Ht. reflexivity.
Defined.

(** X19: with taints enabled and an effect outside the three supported, the
    start-up never creates the virtual node and never runs the node
    controller; when it got as far as a working HTTP server, it returns the
    invalid-input error of [getTaint] and its last two calls are the set-up
    of the server and its cancellation. *)
Theorem unsupported_taint_stops_startup (k : Collaborators) (c : Opts) :
  DisableTaint c = false ->
  supported (TaintEffect c) = false ->
  let r := runRootCommand k c in
  existsb is_node_created (snd r) = false
  /\ existsb is_node_run (snd r) = false
  /\ (existsb (is_served k) (snd r) = true ->
      fst r = Some (unsupported_effect (Quote k) (TaintEffect c))
      /\ exists pre srv, snd r = (pre ++ [StSetupHTTP srv; StCancelHTTP])%list).
Proof.
  intros Hd Hs r; unfold r; clear r.
  assert (Ht : nodeTaint k c
               = inl (unsupported_effect (Quote k) (TaintEffect c))).
  { destruct (nodeTaint_cases k c)
      as [(Hd' & _) | [(_ & Hs' & _) | (_ & _ & Hv)]];
      [rewrite Hd in Hd'; discriminate Hd'
      | rewrite Hs in Hs'; discriminate Hs' | exact Hv]. }
  unfold_run. rewrite Ht.
  run_cases; collect; cbn [existsb is_node_created is_node_run is_served orb];
    repeat match goal with
           | H : setupHTTPServer k _ = _ |- _ => rewrite H
           end;
    cbn [orb]; (split; [reflexivity|]); (split; [reflexivity|]);
    intro H; try discriminate H.
  split; [reflexivity|].
  eexists [_; _; _; _; _; _; _], _. reflexivity.
Qed.

Lemma unsupported_taint_stops_startup_witness :
  fst (runRootCommand all_fine (set_TaintEffect sample_opts "NoExec"))
  = Some (unsupported_effect (Quote all_fine) "NoExec").
Proof.
  destruct (unsupported_taint_stops_startup all_fine
              (set_TaintEffect sample_opts "NoExec") eq_refl eq_refl)
    as (_ & _ & H).
  destruct (H eq_refl) as [He _]. exact He.
Defined.

(** X20: without a positive start-up timeout [runRootCommand] never waits
    for the pod controller; when it waits, it waits with the timeout of the
    options, which is positive, and the pod controller was started before. *)
Theorem startup_wait_follows_timeout (k : Collaborators) (c : Opts) :
  ((StartupTimeout c <= 0)%Z ->
   existsb is_wait (snd (runRootCommand k c)) = false)
  /\ (forall t, In (StWaitFor t) (snd (runRootCommand k c)) ->
        t = StartupTimeout c /\ (0 < t)%Z
        /\ existsb is_pod_run (snd (runRootCommand k c)) = true).
Proof.
  split.
  - intro Hle. unfold_run.
    run_cases; collect; cbn [existsb is_wait orb]; try reflexivity;
      match goal with
      | H : (0 <? StartupTimeout c)%Z = true |- _ =>
          apply Z.ltb_lt in H; lia
      end.
  - intro t. unfold_run.
    run_cases; collect; cbn [In existsb is_pod_run orb];
      intro H; repeat destruct H as [H|H];
      try discriminate H; try contradiction;
      inversion H; subst t;
      match goal with
      | H : (0 <? StartupTimeout c)%Z = true |- _ => apply Z.ltb_lt in H
      end; now repeat split.
Qed.

Lemma startup_wait_follows_timeout_witness :
  existsb is_wait (snd (runRootCommand all_fine sample_opts)) = false
  /\ (5 = StartupTimeout (set_StartupTimeout sample_opts 5))%Z.
Proof.
  split.
  - apply (startup_wait_follows_timeout all_fine sample_opts).
    vm_compute. discriminate.
  - destruct (startup_wait_follows_timeout all_fine
                (set_StartupTimeout sample_opts 5)) as [_ H].
    apply (H 5%Z). vm_compute. tauto.
Defined.

(** X21: when the pod controller is not ready before the positive start-up
    timeout ends, the node controller is never run; if the start-up got as
    far as waiting, it returns the context's error wrapped with the text
    [Error while starting up VK], after the pod controller was started, and
    its last calls are the wait and the cancellation of the HTTP server. *)
Theorem startup_timeout_expiry (k : Collaborators) (c : Opts) (e : error) :
  (0 < StartupTimeout c)%Z ->
  Ready k (StartupTimeout c) = Some e ->
  let r := runRootCommand k c in
  existsb is_node_run (snd r) = false
  /\ (existsb is_wait (snd r) = true ->
      fst r = Some (Errorf ("Error while starting up VK: " ++ ErrorText e) e)
      /\ existsb is_pod_run (snd r) = true
      /\ exists pre,
           snd r = (pre ++ [StWaitFor (StartupTimeout c); StCancelHTTP])%list).
Proof.
  intros Hpos Hr r; unfold r; clear r.
  apply Z.ltb_lt in Hpos. unfold_run. rewrite Hpos, Hr. cbn [Wrap Wrapf].
  run_cases; collect; cbn [existsb is_node_run is_wait is_pod_run orb];
    (split; [reflexivity|]); intro H; try discriminate H.
  split; [reflexivity|]. split; [reflexivity|].
  eexists [_; _; _; _; _; _; _; _; _; _; _; _; _]. reflexivity.
Qed.

Lemma startup_timeout_expiry_witness :
  fst (runRootCommand never_ready (set_StartupTimeout sample_opts 5))
  = Some (Errorf "Error while starting up VK: context deadline exceeded"
                 (ErrorString "context deadline exceeded")).
Proof.
  destruct (startup_timeout_expiry never_ready
              (set_StartupTimeout sample_opts 5)
              (ErrorString "context deadline exceeded")) as [_ H].
  - reflexivity.
  - reflexivity.
  - destruct (H eq_refl) as [He _]. exact He.
Defined.

Lemma waitFor_cases (k : Collaborators) (time : Z) :
  (Ready k time = None /\ waitFor k time = None)
  \/ (exists e, Ready k time = Some e
                /\ waitFor k time
                   = Some (Errorf ("Error while starting up VK" ++ ": "
                                   ++ ErrorText e) e)).
Proof.
  unfold waitFor. destruct (Ready k time) as [e|]; [right | now left].
  now exists e.
Qed.

Ltac pick_member := cbn [In wrap_messages]; repeat (first [left; reflexivity | right]).

(** X22: the node controller is run only at the end of a complete set-up:
    if [runRootCommand] runs it, then every collaborator before it
    succeeded, the DNS endpoint had an address, the taint was disabled or
    supported, the pod controller was ready within a positive timeout, and
    the result of [runRootCommand] is the result of the node controller;
    the cancellation of the HTTP server follows as the last call. *)
Theorem node_controller_runs_after_full_setup (k : Collaborators) (c : Opts) :
  existsb is_node_run (snd (runRootCommand k c)) = true ->
  GetConfig k = None
  /\ NewForConfig k = None
  /\ NewResourceManager k = None
  /\ (exists ep s ss a aa,
        GetEndpoints k = inr ep /\ Subsets ep = s :: ss /\ Addresses s = a :: aa)
  /\ (exists cfg, In (StNewProvider cfg) (snd (runRootCommand k c))
                  /\ NewProvider k cfg = None)
  /\ (exists srv, In (StSetupHTTP srv) (snd (runRootCommand k c))
                  /\ setupHTTPServer k srv = None)
  /\ (DisableTaint c = false -> supported (TaintEffect c) = true)
  /\ NewNodeController k (EnableNodeLease c) = None
  /\ NewPodController k = None
  /\ ((0 < StartupTimeout c)%Z -> Ready k (StartupTimeout c) = None)
  /\ fst (runRootCommand k c) = nodeControllerRun k
  /\ exists pre,
       snd (runRootCommand k c)
       = (pre ++ [StRunNodeController; StCancelHTTP])%list.
Proof.
  assert (Ht : forall t, nodeTaint k c = inr t ->
                 DisableTaint c = false -> supported (TaintEffect c) = true).
  { intros t Hv Hd.
    destruct (nodeTaint_cases k c)
      as [(Hd' & _) | [(_ & Hs & _) | (_ & _ & Hv')]];
      [rewrite Hd in Hd'; discriminate Hd' | exact Hs
      | rewrite Hv in Hv'; discriminate Hv']. }
  unfold runRootCommand, registerAndRun.
  run_cases; collect; cbn [existsb is_node_run orb];
    intro H; try discriminate H;
    repeat match goal with |- _ /\ _ => split end;
    try assumption; try reflexivity;
    try (now (do 5 eexists; repeat split; eassumption));
    try (eexists; split; [|eassumption]; pick_member);
    try (intro Hd; eapply Ht; [first [eassumption | reflexivity] | exact Hd]);
    try (match goal with
         | H : (0 <? StartupTimeout c)%Z = false |- _ =>
             apply Z.ltb_ge in H; intro; lia
         end);
    try (match goal with
         | H : waitFor k _ = None |- _ =>
             intros _;
             destruct (waitFor_cases k (StartupTimeout c))
               as [[Hr _] | (x & _ & Hw)];
             [exact Hr | rewrite H in Hw; discriminate Hw]
         end).
  - eexists [_; _; _; _; _; _; _; _; _; _; _; _; _; _]. reflexivity.
  - eexists [_; _; _; _; _; _; _; _; _; _; _; _; _]. reflexivity.
Qed.

Lemma node_controller_runs_after_full_setup_witness :
  fst (runRootCommand all_fine sample_opts) = nodeControllerRun all_fine
  /\ NewPodController all_fine = None.
Proof.
  destruct (node_controller_runs_after_full_setup all_fine sample_opts eq_refl)
    as (_ & _ & _ & _ & _ & _ & _ & _ & Hp & _ & Hr & _).
  split; [exact Hr | exact Hp].
Defined.

(** X23: the provider is created with the node name and the listen port of
    the options, the build version, and as internal address the value of
    the variable VKUBELET_POD_IP when it is set, even to the empty string,
    and 127.0.0.1 only when it is unset; the HTTP server is set up on the
    listen port in decimal after a colon, with an empty metrics address. *)
Theorem provider_and_server_configuration (k : Collaborators) (c : Opts) :
  (forall cfg, In (StNewProvider cfg) (snd (runRootCommand k c)) ->
     InitNodeName cfg = NodeName c
     /\ DaemonPort cfg = ListenPort c
     /\ InitBuildVersion cfg = BuildVersion k
     /\ InternalIP cfg = match LookupEnv k "VKUBELET_POD_IP" with
                         | Some v => v
                         | None => "127.0.0.1"
                         end)
  /\ (forall srv, In (StSetupHTTP srv) (snd (runRootCommand k c)) ->
        Addr srv = ":" ++ decimal (ListenPort c)
        /\ ServerMetricsAddr srv = ""
        /\ CertPath srv = Getenv k "APISERVER_CERT_LOCATION"
        /\ KeyPath srv = Getenv k "APISERVER_KEY_LOCATION").
Proof.
  split; intro x; unfold_run;
    run_cases; collect; rewrite ?in_app_iff; cbn [In];
    intro H; repeat destruct H as [H|H];
    try discriminate H; try contradiction;
    inversion H; subst x; unfold envOr;
    repeat match goal with
           | E : LookupEnv k _ = _ |- _ => rewrite E
           end;
    now repeat split.
Qed.

Lemma provider_and_server_configuration_witness :
  InternalIP (mkInitConfig "hpk-node" "127.0.0.1" 10250 "v0") = "127.0.0.1"
  /\ Addr (mkApiServerConfig "" "" ":10250" "") = ":" ++ decimal 10250.
Proof.
  destruct (provider_and_server_configuration all_fine sample_opts) as [H1 H2].
  split.
  - destruct (H1 (mkInitConfig "hpk-node" "127.0.0.1" 10250 "v0"))
      as (_ & _ & _ & H); [vm_compute; tauto | exact H].
  - destruct (H2 (mkApiServerConfig "" "" ":10250" ""))
      as (H & _); [vm_compute; tauto | exact H].
Defined.

(** X24: every error [runRootCommand] returns is of one of four kinds: the
    error of a collaborator wrapped with one of eight fixed messages, its
    text being the message, a colon and the text of the cause; or, passed on
    unwrapped, the error of the provider's creation, of the taint, or of the
    node controller's run. *)
Theorem runRootCommand_error_kinds (k : Collaborators) (c : Opts) (e : error) :
  fst (runRootCommand k c) = Some e ->
  (exists cause msg,
     In msg wrap_messages
     /\ e = Errorf (msg ++ ": " ++ ErrorText cause) cause)
  \/ (exists cfg, NewProvider k cfg = Some e)
  \/ nodeTaint k c = inl e
  \/ nodeControllerRun k = Some e.
Proof.
  unfold runRootCommand, registerAndRun.
  run_cases; collect; intro H; try discriminate H;
    first
      [ match goal with
        | H : Some (Errorf (?m ++ ": " ++ ErrorText ?x) ?x) = Some e |- _ =>
            left; exists x, m; split; [pick_member | now inversion H]
        end
      | match goal with
        | Hw : waitFor k _ = Some _ |- _ =>
            destruct (waitFor_cases k (StartupTimeout c))
              as [[_ Hn] | (x & _ & Hx)];
            [ rewrite Hw in Hn; discriminate Hn
            | left; exists x, "Error while starting up VK";
              split; [pick_member | congruence] ]
        end
      | (inversion H; subst;
         first [ now (right; right; right)
               | now (right; right; left)
               | (right; left; eexists; eassumption) ]) ].
Qed.

Lemma runRootCommand_error_kinds_witness :
  (exists cause msg,
     In msg wrap_messages
     /\ Errorf "Error while starting up VK: context deadline exceeded"
               (ErrorString "context deadline exceeded")
        = Errorf (msg ++ ": " ++ ErrorText cause) cause)
  \/ (exists cfg,
        NewProvider never_ready cfg
        = Some (Errorf "Error while starting up VK: context deadline exceeded"
                       (ErrorString "context deadline exceeded")))
  \/ nodeTaint never_ready (set_StartupTimeout sample_opts 5)
     = inl (Errorf "Error while starting up VK: context deadline exceeded"
                   (ErrorString "context deadline exceeded"))
  \/ nodeControllerRun never_ready
     = Some (Errorf "Error while starting up VK: context deadline exceeded"
                    (ErrorString "context deadline exceeded")).
Proof.
  apply (runRootCommand_error_kinds never_ready
           (set_StartupTimeout sample_opts 5)).
  reflexivity.
Defined.

End root_facts.
